(** * Session orchestration core of the live screen-sharing assistant

    A shallow embedding of [src/App.tsx] (with the types of [src/types.ts]):
    the session state held in React state, the mutable refs and closure
    variables of the component, and the event handlers that drive them
    ([stopAllStreams], [handleStopSession], [startLiveSession] and the
    channel callbacks [onopen], [onmessage], [onerror], [onclose]).

    Modelling conventions.
    - JavaScript numbers that hold times (the playback cursor
      [nextStartTimeRef], [AudioContext.currentTime], buffer durations) are
      rationals: rounding of doubles is not modelled.  [Date.now()] is an
      integer.
    - Objects with identity (media tracks, buffer source nodes) are numbered.
      What the code does to the outside world (stopping a track, clearing a
      timer, starting or stopping a source node) is recorded, in order, in
      the [trace] of the world.
    - A handler runs to completion before the next event is delivered (one
      control thread).  The [await]s of [startLiveSession] are answered by an
      environment record; the [await] of [onmessage] is answered by the
      decoder, which is not part of the sources and is a parameter.
    - [setSession] and [setTranscriptions] are React state setters called
      with updater functions.  The updaters are closures; they are kept as
      data ([SessionUpdate], [TranscriptUpdate]) and run by [render], or at
      the call, according to the [ReactMode]. *)

From Stdlib Require Import List String Ascii Bool ZArith QArith Lia Lqa.
Import ListNotations.

Local Open Scope string_scope.
Local Open Scope list_scope.

(** ** Data model ([src/types.ts]) *)

Inductive Status : Type :=
| StatusIdle
| StatusConnecting
| StatusConnected
| StatusError.

Record SessionState : Type := mkSessionState {
  isActive : bool;
  isMuted : bool;
  isScreenSharing : bool;
  status : Status;
  error : option string
}.

Inductive Role : Type := User | Model.

Record TranscriptionItem : Type := mkTranscriptionItem {
  type : Role;
  text : string;
  timestamp : Z
}.

(** ** Values of the platform *)

(** A thrown JavaScript error, as far as the code inspects it. *)
Record JsError : Type := mkJsError {
  name : string;
  message : string
}.

Definition TrackId := nat.
Definition SourceId := nat.

Record MediaStream : Type := mkMediaStream {
  audioTracks : list TrackId;
  videoTracks : list TrackId
}.

Definition getTracks (s : MediaStream) : list TrackId :=
  audioTracks s ++ videoTracks s.

Definition getVideoTracks (s : MediaStream) : list TrackId := videoTracks s.

(** What the handlers do to the platform. *)
Inductive Op : Type :=
| TrackStop (t : TrackId)
| ClearInterval (id : positive)
| SourceStart (s : SourceId) (when : Q)
| SourceStop (s : SourceId).

(** The part of a [LiveServerMessage] that [onmessage] reads. *)
Record LiveServerMessage : Type := mkMessage {
  modelTurnAudio : option string;
  interrupted : bool;
  inputTranscription : option string;
  outputTranscription : option string;
  turnComplete : bool
}.

(** JavaScript truthiness of a string, [a || b] on strings, [Math.max],
    [String.prototype.includes] and [Array.prototype.slice(-n)]. *)
Definition truthy (s : string) : bool :=
  match s with
  | EmptyString => false
  | String _ _ => true
  end.

Definition orElse (a b : string) : string := if truthy a then a else b.

Definition Math_max (a b : Q) : Q := if Qle_bool b a then a else b.

Fixpoint includes (hay needle : string) : bool :=
  if String.prefix needle hay then true
  else match hay with
       | EmptyString => false
       | String _ rest => includes rest needle
       end.

Definition slice_last {A : Type} (n : nat) (l : list A) : list A :=
  skipn (List.length l - n) l.

(** Adding to and deleting from a JavaScript [Set], kept in insertion
    order. *)
Definition Set_add (s : SourceId) (l : list SourceId) : list SourceId :=
  if existsb (Nat.eqb s) l then l else l ++ [s].

Definition Set_delete (s : SourceId) (l : list SourceId) : list SourceId :=
  filter (fun x => negb (Nat.eqb s x)) l.

(** ** Updater closures

    [setSession (prev => ({ ...prev, ... }))]: one constructor for each
    updater of the source. *)
Inductive SessionUpdate : Type :=
| ToConnecting
| ToConnected
| ToError (msg : string)
| ToIdle.

Definition applySessionUpdate (u : SessionUpdate) (prev : SessionState)
  : SessionState :=
  match u with
  | ToConnecting =>
      mkSessionState (isActive prev) (isMuted prev) (isScreenSharing prev)
        StatusConnecting None
  | ToConnected =>
      mkSessionState true (isMuted prev) true StatusConnected (error prev)
  | ToError msg =>
      mkSessionState (isActive prev) (isMuted prev) (isScreenSharing prev)
        StatusError (Some msg)
  | ToIdle =>
      mkSessionState false (isMuted prev) false StatusIdle (error prev)
  end.

(** [setTranscriptions (prev => [...prev.slice(-10), { type, text:
    currentInputTranscription, timestamp: Date.now() }])].  The closure does
    not hold the text: it reads the variable [currentInputTranscription]
    (or [currentOutputTranscription]) and the clock when it is run. *)
Inductive TranscriptUpdate : Type :=
| PushUser
| PushModel.

Definition applyTranscriptUpdate (u : TranscriptUpdate)
    (currentInput currentOutput : string) (dateNow : Z)
    (prev : list TranscriptionItem) : list TranscriptionItem :=
  match u with
  | PushUser =>
      slice_last 10 prev ++ [mkTranscriptionItem User currentInput dateNow]
  | PushModel =>
      slice_last 10 prev ++ [mkTranscriptionItem Model currentOutput dateNow]
  end.

(** ** The world: React state, refs, closure variables, trace

    [session] and [transcriptions] are the rendered React state, and
    [pendingSession] and [pendingTranscriptions] the updaters queued since.
    The refs follow: the two audio contexts (whether created), the playback
    cursor [nextStartTimeRef], the set [audioSourcesRef] with the number of
    the next source node to be created, the two stream refs and
    [frameIntervalRef].  A timer id returned by [window.setInterval] is a
    positive integer, so that the test [if (frameIntervalRef.current)] is a
    test for null.  [currentInputTranscription] and
    [currentOutputTranscription] are the [let] variables of
    [startLiveSession] that the callbacks close over.  The refs of the
    capture side ([sessionPromiseRef], [videoRef], [canvasRef]) are not
    part of the model. *)

Record World : Type := mkWorld {
  session : SessionState;
  transcriptions : list TranscriptionItem;
  pendingSession : list SessionUpdate;
  pendingTranscriptions : list TranscriptUpdate;
  inputAudioCtx : bool;
  outputAudioCtx : bool;
  nextStartTime : Q;
  audioSources : list SourceId;
  nextSourceId : SourceId;
  screenStream : option MediaStream;
  micStream : option MediaStream;
  frameInterval : option positive;
  currentInputTranscription : string;
  currentOutputTranscription : string;
  trace : list Op
}.

Definition initialSession : SessionState :=
  mkSessionState false false false StatusIdle None.

Definition initialWorld : World :=
  mkWorld initialSession [] [] [] false false 0 [] 0%nat None None None
    "" "" [].

Definition set_session (v : SessionState) (w : World) : World :=
  mkWorld v (transcriptions w) (pendingSession w) (pendingTranscriptions w)
    (inputAudioCtx w) (outputAudioCtx w) (nextStartTime w) (audioSources w)
    (nextSourceId w) (screenStream w) (micStream w) (frameInterval w)
    (currentInputTranscription w) (currentOutputTranscription w) (trace w).

Definition set_transcriptions (v : list TranscriptionItem) (w : World)
  : World :=
  mkWorld (session w) v (pendingSession w) (pendingTranscriptions w)
    (inputAudioCtx w) (outputAudioCtx w) (nextStartTime w) (audioSources w)
    (nextSourceId w) (screenStream w) (micStream w) (frameInterval w)
    (currentInputTranscription w) (currentOutputTranscription w) (trace w).

Definition set_pendingSession (v : list SessionUpdate) (w : World) : World :=
  mkWorld (session w) (transcriptions w) v (pendingTranscriptions w)
    (inputAudioCtx w) (outputAudioCtx w) (nextStartTime w) (audioSources w)
    (nextSourceId w) (screenStream w) (micStream w) (frameInterval w)
    (currentInputTranscription w) (currentOutputTranscription w) (trace w).

Definition set_pendingTranscriptions (v : list TranscriptUpdate) (w : World)
  : World :=
  mkWorld (session w) (transcriptions w) (pendingSession w) v
    (inputAudioCtx w) (outputAudioCtx w) (nextStartTime w) (audioSources w)
    (nextSourceId w) (screenStream w) (micStream w) (frameInterval w)
    (currentInputTranscription w) (currentOutputTranscription w) (trace w).

Definition set_inputAudioCtx (v : bool) (w : World) : World :=
  mkWorld (session w) (transcriptions w) (pendingSession w)
    (pendingTranscriptions w) v (outputAudioCtx w) (nextStartTime w)
    (audioSources w) (nextSourceId w) (screenStream w) (micStream w)
    (frameInterval w) (currentInputTranscription w)
    (currentOutputTranscription w) (trace w).

Definition set_outputAudioCtx (v : bool) (w : World) : World :=
  mkWorld (session w) (transcriptions w) (pendingSession w)
    (pendingTranscriptions w) (inputAudioCtx w) v (nextStartTime w)
    (audioSources w) (nextSourceId w) (screenStream w) (micStream w)
    (frameInterval w) (currentInputTranscription w)
    (currentOutputTranscription w) (trace w).

Definition set_nextStartTime (v : Q) (w : World) : World :=
  mkWorld (session w) (transcriptions w) (pendingSession w)
    (pendingTranscriptions w) (inputAudioCtx w) (outputAudioCtx w) v
    (audioSources w) (nextSourceId w) (screenStream w) (micStream w)
    (frameInterval w) (currentInputTranscription w)
    (currentOutputTranscription w) (trace w).

Definition set_audioSources (v : list SourceId) (w : World) : World :=
  mkWorld (session w) (transcriptions w) (pendingSession w)
    (pendingTranscriptions w) (inputAudioCtx w) (outputAudioCtx w)
    (nextStartTime w) v (nextSourceId w) (screenStream w) (micStream w)
    (frameInterval w) (currentInputTranscription w)
    (currentOutputTranscription w) (trace w).

Definition set_nextSourceId (v : SourceId) (w : World) : World :=
  mkWorld (session w) (transcriptions w) (pendingSession w)
    (pendingTranscriptions w) (inputAudioCtx w) (outputAudioCtx w)
    (nextStartTime w) (audioSources w) v (screenStream w) (micStream w)
    (frameInterval w) (currentInputTranscription w)
    (currentOutputTranscription w) (trace w).

Definition set_screenStream (v : option MediaStream) (w : World) : World :=
  mkWorld (session w) (transcriptions w) (pendingSession w)
    (pendingTranscriptions w) (inputAudioCtx w) (outputAudioCtx w)
    (nextStartTime w) (audioSources w) (nextSourceId w) v (micStream w)
    (frameInterval w) (currentInputTranscription w)
    (currentOutputTranscription w) (trace w).

Definition set_micStream (v : option MediaStream) (w : World) : World :=
  mkWorld (session w) (transcriptions w) (pendingSession w)
    (pendingTranscriptions w) (inputAudioCtx w) (outputAudioCtx w)
    (nextStartTime w) (audioSources w) (nextSourceId w) (screenStream w) v
    (frameInterval w) (currentInputTranscription w)
    (currentOutputTranscription w) (trace w).

Definition set_frameInterval (v : option positive) (w : World) : World :=
  mkWorld (session w) (transcriptions w) (pendingSession w)
    (pendingTranscriptions w) (inputAudioCtx w) (outputAudioCtx w)
    (nextStartTime w) (audioSources w) (nextSourceId w) (screenStream w)
    (micStream w) v (currentInputTranscription w)
    (currentOutputTranscription w) (trace w).

Definition set_currentInputTranscription (v : string) (w : World) : World :=
  mkWorld (session w) (transcriptions w) (pendingSession w)
    (pendingTranscriptions w) (inputAudioCtx w) (outputAudioCtx w)
    (nextStartTime w) (audioSources w) (nextSourceId w) (screenStream w)
    (micStream w) (frameInterval w) v (currentOutputTranscription w)
    (trace w).

Definition set_currentOutputTranscription (v : string) (w : World) : World :=
  mkWorld (session w) (transcriptions w) (pendingSession w)
    (pendingTranscriptions w) (inputAudioCtx w) (outputAudioCtx w)
    (nextStartTime w) (audioSources w) (nextSourceId w) (screenStream w)
    (micStream w) (frameInterval w) (currentInputTranscription w) v
    (trace w).

Definition log (o : Op) (w : World) : World :=
  mkWorld (session w) (transcriptions w) (pendingSession w)
    (pendingTranscriptions w) (inputAudioCtx w) (outputAudioCtx w)
    (nextStartTime w) (audioSources w) (nextSourceId w) (screenStream w)
    (micStream w) (frameInterval w) (currentInputTranscription w)
    (currentOutputTranscription w) (trace w ++ [o]).

(** ** Handlers as computations that may throw

    A computation changes the world and either completes or throws; what
    it changed before throwing stays changed. *)

Inductive Completion (A : Type) : Type :=
| Normal (a : A)
| Throw (e : JsError).

Arguments Normal {A} a.
Arguments Throw {A} e.

Definition M (A : Type) : Type := World -> Completion A * World.

Definition ret {A : Type} (a : A) : M A := fun w => (Normal a, w).

Definition bind {A B : Type} (m : M A) (k : A -> M B) : M B :=
  fun w =>
    match m w with
    | (Normal a, w') => k a w'
    | (Throw e, w') => (Throw e, w')
    end.

Definition throw {A : Type} (e : JsError) : M A := fun w => (Throw e, w).

Definition tryCatch {A : Type} (m : M A) (h : JsError -> M A) : M A :=
  fun w =>
    match m w with
    | (Normal a, w') => (Normal a, w')
    | (Throw e, w') => h e w'
    end.

Definition gets {A : Type} (f : World -> A) : M A := fun w => (Normal (f w), w).

Definition modify (f : World -> World) : M unit := fun w => (Normal tt, f w).

(** The result of an awaited promise or of a constructor call. *)
Definition settle {A : Type} (c : Completion A) : M A := fun w => (c, w).

Definition when (b : bool) (m : M unit) : M unit := if b then m else ret tt.

Definition exec {A : Type} (m : M A) (w : World) : World := snd (m w).

Declare Scope js_scope.
Delimit Scope js_scope with js.
Notation "x <- m ;; k" := (bind m (fun x => k))
  (at level 61, m at next level, right associativity) : js_scope.
Notation "m ;; k" := (bind m (fun _ => k))
  (at level 61, right associativity) : js_scope.

(** When React runs an updater passed to a state setter.
    - [Deferred]: the updater is queued and run during the next render,
      after the handler that queued it has returned (the documented
      behaviour; batched updates of a concurrent root).
    - [Immediate]: the updater is run inside the setter call (a legacy root
      outside React event handlers, or an eagerly computed state). *)
Inductive ReactMode : Type := Deferred | Immediate.

(** What the environment answers to [startLiveSession]: whether each
    constructor call throws, and how the two media promises settle. *)
Record StartEnv : Type := mkStartEnv {
  newGoogleGenAI : Completion unit;
  newInputAudioContext : Completion unit;
  newOutputAudioContext : Completion unit;
  getUserMedia : Completion MediaStream;
  getDisplayMedia : Completion MediaStream
}.

Definition blockedMessage : string :=
  "Screen sharing is blocked by your browser's permissions policy. Try opening this app in a full window (pop-out) or check your browser settings to allow display capture.".

Definition fallbackMessage : string :=
  "Permission denied or browser incompatible.".

Definition connectionLostMessage : string := "Connection lost or failed.".

(** [displayErr.name === 'NotAllowedError' ||
    displayErr.message.includes('permissions policy')]. *)
Definition blockedByPolicy (displayErr : JsError) : bool :=
  String.eqb (name displayErr) "NotAllowedError"
  || includes (message displayErr) "permissions policy".

(** Assigning [onended] on [getVideoTracks()[0]] when there is no video
    track. *)
Definition noVideoTrackError : JsError :=
  mkJsError "TypeError" "Cannot set properties of undefined (setting 'onended')".

(** ** The component ([src/App.tsx]) *)

Section App.

(** How React runs updaters (see [ReactMode]). *)
Variable mode : ReactMode.

(** [decodeAudioData (decode (base64Audio), ctx, OUTPUT_SAMPLE_RATE, 1)]
    of [./utils/audioUtils], which is not among the sources: it either
    yields an audio buffer, of which the code reads the [duration], or
    throws. *)
Variable decodeAudioData : string -> Completion Q.

Local Open Scope js_scope.

(** [setSession (updater)] and [setTranscriptions (updater)]. *)
Definition setSession (u : SessionUpdate) (w : World) : World :=
  match mode with
  | Deferred => set_pendingSession (pendingSession w ++ [u]) w
  | Immediate => set_session (applySessionUpdate u (session w)) w
  end.

Definition setTranscriptions (dateNow : Z) (u : TranscriptUpdate) (w : World)
  : World :=
  match mode with
  | Deferred => set_pendingTranscriptions (pendingTranscriptions w ++ [u]) w
  | Immediate =>
      set_transcriptions
        (applyTranscriptUpdate u (currentInputTranscription w)
           (currentOutputTranscription w) dateNow (transcriptions w)) w
  end.

(** A render: React runs the queued updaters, in order, on the state. The
    updaters of [setTranscriptions] read the closure variables as they are
    now. *)
Definition render (dateNow : Z) (w : World) : World :=
  let s :=
    fold_left (fun prev u => applySessionUpdate u prev) (pendingSession w)
      (session w) in
  let t :=
    fold_left
      (fun prev u =>
         applyTranscriptUpdate u (currentInputTranscription w)
           (currentOutputTranscription w) dateNow prev)
      (pendingTranscriptions w) (transcriptions w) in
  set_pendingTranscriptions []
    (set_pendingSession [] (set_transcriptions t (set_session s w))).

(** [stream.getTracks().forEach(t => t.stop())] and
    [audioSourcesRef.current.forEach(s => s.stop())]. *)
Definition stopTracks (s : MediaStream) (w : World) : World :=
  fold_left (fun w t => log (TrackStop t) w) (getTracks s) w.

Definition stopSources (w : World) : World :=
  fold_left (fun w s => log (SourceStop s) w) (audioSources w) w.

Definition stopAllStreams (w : World) : World :=
  let w :=
    match screenStream w with
    | Some s => set_screenStream None (stopTracks s w)
    | None => w
    end in
  let w :=
    match micStream w with
    | Some s => set_micStream None (stopTracks s w)
    | None => w
    end in
  let w :=
    match frameInterval w with
    | Some id => set_frameInterval None (log (ClearInterval id) w)
    | None => w
    end in
  set_audioSources [] (stopSources w).

Definition handleStopSession (w : World) : World :=
  setSession ToIdle (stopAllStreams w).

(** The [try] block of [startLiveSession], up to the call of
    [ai.live.connect]; the callbacks passed there are the handlers below. *)
Definition startLiveSession_try (env : StartEnv) : M unit :=
  modify (setSession ToConnecting) ;;
  settle (newGoogleGenAI env) ;;
  (haveInput <- gets inputAudioCtx ;;
   when (negb haveInput)
     (settle (newInputAudioContext env) ;;
      modify (set_inputAudioCtx true))) ;;
  (haveOutput <- gets outputAudioCtx ;;
   when (negb haveOutput)
     (settle (newOutputAudioContext env) ;;
      modify (set_outputAudioCtx true))) ;;
  micStream <- settle (getUserMedia env) ;;
  modify (set_micStream (Some micStream)) ;;
  screenStream <-
    tryCatch (settle (getDisplayMedia env))
      (fun displayErr =>
         if blockedByPolicy displayErr
         then throw (mkJsError "Error" blockedMessage)
         else throw displayErr) ;;
  modify (set_screenStream (Some screenStream)) ;;
  match getVideoTracks screenStream with
  | [] => throw noVideoTrackError
  | _ :: _ => ret tt
  end ;;
  modify (set_currentInputTranscription "") ;;
  modify (set_currentOutputTranscription "").

Definition startLiveSession (env : StartEnv) (w : World) : World :=
  exec
    (tryCatch (startLiveSession_try env)
       (fun err =>
          modify (setSession (ToError (orElse (message err) fallbackMessage))) ;;
          modify stopAllStreams))
    w.

(** [onopen]: the session becomes connected and the frame timer is
    installed; [timerId] is what [window.setInterval] returns. *)
Definition onopen (timerId : positive) (w : World) : World :=
  set_frameInterval (Some timerId) (setSession ToConnected w).

(** [onmessage]; [currentTime] is [outputAudioCtxRef.current.currentTime]
    and [dateNow] is [Date.now()] when the handler runs. *)
Definition onmessage (currentTime : Q) (dateNow : Z)
    (msg : LiveServerMessage) : M unit :=
  match modelTurnAudio msg with
  | Some base64Audio =>
      haveOutput <- gets outputAudioCtx ;;
      when (truthy base64Audio && haveOutput)
        (modify (fun w =>
           set_nextStartTime (Math_max (nextStartTime w) currentTime) w) ;;
         duration <- settle (decodeAudioData base64Audio) ;;
         source <- gets nextSourceId ;;
         modify (set_nextSourceId (S source)) ;;
         start <- gets nextStartTime ;;
         modify (log (SourceStart source start)) ;;
         modify (fun w =>
           set_nextStartTime (nextStartTime w + duration)%Q w) ;;
         modify (fun w => set_audioSources (Set_add source (audioSources w)) w))
  | None => ret tt
  end ;;
  when (interrupted msg)
    (modify stopSources ;;
     modify (set_audioSources []) ;;
     modify (set_nextStartTime 0%Q)) ;;
  match inputTranscription msg with
  | Some t =>
      modify (fun w =>
        set_currentInputTranscription (currentInputTranscription w ++ t) w)
  | None => ret tt
  end ;;
  match outputTranscription msg with
  | Some t =>
      modify (fun w =>
        set_currentOutputTranscription (currentOutputTranscription w ++ t) w)
  | None => ret tt
  end ;;
  when (turnComplete msg)
    ((cur <- gets currentInputTranscription ;;
      when (truthy cur) (modify (setTranscriptions dateNow PushUser))) ;;
     (cur <- gets currentOutputTranscription ;;
      when (truthy cur) (modify (setTranscriptions dateNow PushModel))) ;;
     modify (set_currentInputTranscription "") ;;
     modify (set_currentOutputTranscription "")).

(** [source.onended = () => audioSourcesRef.current.delete (source)]. *)
Definition source_onended (s : SourceId) (w : World) : World :=
  set_audioSources (Set_delete s (audioSources w)) w.

Definition onerror (w : World) : World :=
  handleStopSession (setSession (ToError connectionLostMessage) w).

Definition onclose (w : World) : World := handleStopSession w.

(** [screenStream.getVideoTracks()[0].onended = () => { handleStopSession();
    }] and the button [onClick={handleStopSession}]. *)
Definition videoTrack_onended (w : World) : World := handleStopSession w.

Definition stopButton_onClick (w : World) : World := handleStopSession w.

(** ** Events and runs *)

Inductive Event : Type :=
| EvStartClick (env : StartEnv)
| EvStopClick
| EvOpen (timerId : positive)
| EvMessage (currentTime : Q) (dateNow : Z) (msg : LiveServerMessage)
| EvError
| EvClose
| EvVideoTrackEnded
| EvSourceEnded (s : SourceId)
| EvRender (dateNow : Z).

Definition step (w : World) (e : Event) : World :=
  match e with
  | EvStartClick env => startLiveSession env w
  | EvStopClick => stopButton_onClick w
  | EvOpen timerId => onopen timerId w
  | EvMessage currentTime dateNow msg =>
      exec (onmessage currentTime dateNow msg) w
  | EvError => onerror w
  | EvClose => onclose w
  | EvVideoTrackEnded => videoTrack_onended w
  | EvSourceEnded s => source_onended s w
  | EvRender dateNow => render dateNow w
  end.

Definition run (evs : list Event) (w : World) : World := fold_left step evs w.

End App.

(** ** Observations used in the statements *)

(** Appending a batch of operations to the trace. *)
Definition logs (os : list Op) (w : World) : World :=
  mkWorld (session w) (transcriptions w) (pendingSession w)
    (pendingTranscriptions w) (inputAudioCtx w) (outputAudioCtx w)
    (nextStartTime w) (audioSources w) (nextSourceId w) (screenStream w)
    (micStream w) (frameInterval w) (currentInputTranscription w)
    (currentOutputTranscription w) (trace w ++ os).

Definition streamTracks (s : option MediaStream) : list TrackId :=
  match s with
  | Some m => getTracks m
  | None => []
  end.

(** The operations of a teardown of [w], in the order of
    [stopAllStreams]. *)
Definition teardownOps (w : World) : list Op :=
  map TrackStop (streamTracks (screenStream w))
  ++ map TrackStop (streamTracks (micStream w))
  ++ match frameInterval w with
     | Some id => [ClearInterval id]
     | None => []
     end
  ++ map SourceStop (audioSources w).

(** The start times passed to [source.start], oldest first. *)
Fixpoint scheduledStarts (os : list Op) : list Q :=
  match os with
  | [] => []
  | SourceStart _ t :: rest => t :: scheduledStarts rest
  | _ :: rest => scheduledStarts rest
  end.

(** No stream, no timer, no playing source, and the session idle. *)
Definition alreadyIdle (w : World) : Prop :=
  screenStream w = None /\ micStream w = None /\ frameInterval w = None
  /\ audioSources w = [] /\ status (session w) = StatusIdle
  /\ isActive (session w) = false /\ isScreenSharing (session w) = false.

(** In [Immediate] mode no updater is ever left in a queue. *)
Definition queuesRespectMode (mode : ReactMode) (w : World) : Prop :=
  mode = Immediate -> pendingSession w = [] /\ pendingTranscriptions w = [].

(** The audio payload of [msg], when [onmessage] decodes one in [w]. *)
Definition decodedPayload (msg : LiveServerMessage) (w : World)
  : option string :=
  match modelTurnAudio msg with
  | Some base64Audio =>
      if truthy base64Audio && outputAudioCtx w then Some base64Audio
      else None
  | None => None
  end.

(** The session that the next render shows. *)
Definition renderedSession (w : World) : SessionState :=
  fold_left (fun prev u => applySessionUpdate u prev) (pendingSession w)
    (session w).

(** The world when the [catch] block of [startLiveSession] has run on
    [err], [acquired] being the microphone stream obtained before. *)
Definition afterCatch (mode : ReactMode) (err : JsError)
    (acquired : option MediaStream) (w : World) : World :=
  stopAllStreams
    (setSession mode (ToError (orElse (message err) fallbackMessage))
       (set_micStream
          (match acquired with Some m => Some m | None => micStream w end)
          (set_outputAudioCtx true
             (set_inputAudioCtx true (setSession mode ToConnecting w))))).

(** An interruption: a message with the [interrupted] flag. *)
Definition isInterruption (e : Event) : bool :=
  match e with
  | EvMessage _ _ msg => interrupted msg
  | _ => false
  end.

(** An event that neither schedules a buffer nor interrupts: any event but
    a message, and a message without the [interrupted] flag whose audio
    payload is absent or empty. *)
Definition quietEvent (e : Event) : bool :=
  match e with
  | EvMessage _ _ msg =>
      negb (interrupted msg)
      && match modelTurnAudio msg with
         | Some base64Audio => negb (truthy base64Audio)
         | None => true
         end
  | _ => true
  end.

(** [w'] has the playback schedule of [w]: same cursor, same starts, and
    the output context still there. *)
Definition samePlayback (w w' : World) : Prop :=
  nextStartTime w' = nextStartTime w
  /\ scheduledStarts (trace w') = scheduledStarts (trace w)
  /\ (outputAudioCtx w = true -> outputAudioCtx w' = true).

Definition keepsPlayback {A : Type} (m : M A) : Prop :=
  forall w, samePlayback w (snd (m w)).

(** The accumulators once [onmessage] has appended the deltas of [msg]. *)
Definition inputAfter (msg : LiveServerMessage) (w : World) : string :=
  match inputTranscription msg with
  | Some t => currentInputTranscription w ++ t
  | None => currentInputTranscription w
  end.

Definition outputAfter (msg : LiveServerMessage) (w : World) : string :=
  match outputTranscription msg with
  | Some t => currentOutputTranscription w ++ t
  | None => currentOutputTranscription w
  end.

(** The updaters that [onmessage] passes to [setTranscriptions]: at a
    [turnComplete], one for each role whose accumulator is not empty, the
    user's first. *)
Definition turnUpdates (msg : LiveServerMessage) (w : World)
  : list TranscriptUpdate :=
  if turnComplete msg
  then (if truthy (inputAfter msg w) then [PushUser] else [])
       ++ (if truthy (outputAfter msg w) then [PushModel] else [])
  else [].

(** Running a list of updaters with the closure variables and the clock as
    given. *)
Definition applyTranscriptUpdates (us : list TranscriptUpdate)
    (currentInput currentOutput : string) (dateNow : Z)
    (prev : list TranscriptionItem) : list TranscriptionItem :=
  fold_left
    (fun prev u =>
       applyTranscriptUpdate u currentInput currentOutput dateNow prev)
    us prev.

(** ** Turns

    The messages of the channel for the transcript of one speaker: a delta
    of text for [r], and the end of the turn. *)
Definition deltaMessage (r : Role) (t : string) : LiveServerMessage :=
  match r with
  | User => mkMessage None false (Some t) None false
  | Model => mkMessage None false None (Some t) false
  end.

Definition turnCompleteMessage : LiveServerMessage :=
  mkMessage None false None None true.

(** A turn in which one speaker is transcribed: the deltas of text, then
    [turnComplete], then a render; [turnTime] is [Date.now()] meanwhile. *)
Record Turn : Type := mkTurn {
  speaker : Role;
  deltas : list string;
  turnTime : Z
}.

Definition turnEvents (t : Turn) : list Event :=
  map (fun d => EvMessage 0 (turnTime t) (deltaMessage (speaker t) d))
    (deltas t)
  ++ [EvMessage 0 (turnTime t) turnCompleteMessage; EvRender (turnTime t)].

(** The text accumulated over the deltas of a turn, from [acc]. *)
Definition accumulate (acc : string) (ds : list string) : string :=
  fold_left String.append ds acc.

Definition turnText (t : Turn) : string := accumulate "" (deltas t).

(** The item that the turn leaves in the log: its text is the one the
    updater reads when it runs. *)
Definition turnItem (mode : ReactMode) (t : Turn) : TranscriptionItem :=
  mkTranscriptionItem (speaker t)
    (match mode with
     | Immediate => turnText t
     | Deferred => ""
     end)
    (turnTime t).

(** Between two turns: nothing accumulated, no transcript update pending. *)
Definition betweenTurns (w : World) : Prop :=
  currentInputTranscription w = "" /\ currentOutputTranscription w = ""
  /\ pendingTranscriptions w = [].

(** A list of times that never goes back, starting not before [lo]. *)
Fixpoint nondecreasingFrom (lo : Q) (l : list Q) : Prop :=
  match l with
  | [] => True
  | x :: rest => (lo <= x)%Q /\ nondecreasingFrom x rest
  end.

(** ** Concrete inputs used in the examples *)

Module Sample.

(** A decoder for the examples: a payload of [n] characters lasts [n / 2]
    seconds, and the payload ["bad"] is rejected. *)
Definition decodeAudioData (s : string) : Completion Q :=
  if String.eqb s "bad"
  then Throw (mkJsError "RangeError" "byte length of Int16Array should be a multiple of 2")
  else Normal (Z.of_nat (String.length s) # 2).

Definition mic : MediaStream := mkMediaStream [1%nat] [].
Definition screen : MediaStream := mkMediaStream [] [2%nat].

Definition granted : StartEnv :=
  mkStartEnv (Normal tt) (Normal tt) (Normal tt) (Normal mic) (Normal screen).

Definition micRefused : StartEnv :=
  mkStartEnv (Normal tt) (Normal tt) (Normal tt)
    (Throw (mkJsError "NotAllowedError" "Permission denied"))
    (Normal screen).

Definition screenRefused : StartEnv :=
  mkStartEnv (Normal tt) (Normal tt) (Normal tt) (Normal mic)
    (Throw (mkJsError "NotAllowedError" "Permission denied")).

Definition inputDelta (t : string) : LiveServerMessage :=
  deltaMessage User t.

Definition outputDelta (t : string) : LiveServerMessage :=
  deltaMessage Model t.

Definition audioDelta (d : string) : LiveServerMessage :=
  mkMessage (Some d) false None None false.

Definition interruptedMsg : LiveServerMessage :=
  mkMessage None true None None false.

(** A connected session: permissions granted, channel open, rendered. *)
Definition connected (mode : ReactMode) : World :=
  run mode decodeAudioData [EvStartClick granted; EvOpen 7; EvRender 0]
    initialWorld.

(** The same with two buffers scheduled at clock time 0. *)
Definition playing (mode : ReactMode) : World :=
  run mode decodeAudioData
    [EvMessage 0 1 (audioDelta "ab"); EvMessage 0 2 (audioDelta "abcd")]
    (connected mode).

End Sample.

Module Scenario.

(** Both speakers have been transcribed and the turn is not yet complete. *)
Definition bothSpoke (mode : ReactMode) : World :=
  run mode Sample.decodeAudioData
    [EvMessage 0 1 (Sample.inputDelta "hel");
     EvMessage 0 2 (Sample.inputDelta "lo");
     EvMessage 0 3 (Sample.outputDelta "hi")]
    (Sample.connected mode).

(** The scenario of the specification: two deltas of the user's speech,
    the end of the turn, and the render that follows. *)
Definition hello : list Event :=
  [EvMessage 0 1 (Sample.inputDelta "hel");
   EvMessage 0 2 (Sample.inputDelta "lo");
   EvMessage 0 3 turnCompleteMessage;
   EvRender 4].

(** Twelve turns, the user and the model in alternation. *)
Definition twelveTurns : list Turn :=
  [mkTurn User ["hel"; "lo"] 1; mkTurn Model ["hi"] 2;
   mkTurn User ["a"] 3; mkTurn Model ["b"] 4;
   mkTurn User ["c"] 5; mkTurn Model ["d"] 6;
   mkTurn User ["e"] 7; mkTurn Model ["f"] 8;
   mkTurn User ["g"] 9; mkTurn Model ["h"] 10;
   mkTurn User ["i"] 11; mkTurn Model ["j"] 12].

End Scenario.

(** * Further definitions *)

(** ** Invariants of the runs *)

(** A computation keeps a property of the world, whether it completes or
    throws. *)
Definition preserves {A : Type} (P : World -> Prop) (m : M A) : Prop :=
  forall w, P w -> P (snd (m w)).

(** What every session state of a run satisfies: the two flags go
    together, [isMuted] is never set, an idle session is not active, a
    connected one is, a session in error has a message, a connecting one has
    none, and a message is never empty. *)
Definition sessionOk (s : SessionState) : Prop :=
  isActive s = isScreenSharing s
  /\ isMuted s = false
  /\ (status s = StatusIdle -> isActive s = false)
  /\ (status s = StatusConnected -> isActive s = true)
  /\ (status s = StatusError -> error s <> None)
  /\ (status s = StatusConnecting -> error s = None)
  /\ (forall msg, error s = Some msg -> truthy msg = true).

Definition updateOk (u : SessionUpdate) : Prop :=
  match u with
  | ToError msg => truthy msg = true
  | _ => True
  end.

Definition sessionInv (w : World) : Prop :=
  sessionOk (session w) /\ Forall updateOk (pendingSession w).

(** The log within its bound. *)
Definition logBounded (w : World) : Prop :=
  (List.length (transcriptions w) <= 11)%nat.

(** The source nodes passed to [start], oldest first. *)
Fixpoint startedSources (os : list Op) : list SourceId :=
  match os with
  | [] => []
  | SourceStart s _ :: rest => s :: startedSources rest
  | _ :: rest => startedSources rest
  end.

(** Every [stop] of a source node in [os] comes after its [start], the
    nodes of [started] having been started before. *)
Fixpoint stopsFollowStarts (started : list SourceId) (os : list Op) : Prop :=
  match os with
  | [] => True
  | SourceStart s _ :: rest => stopsFollowStarts (s :: started) rest
  | SourceStop s :: rest => In s started /\ stopsFollowStarts started rest
  | _ :: rest => stopsFollowStarts started rest
  end.

(** The discipline of the source nodes: no node is started twice, the
    nodes of [audioSourcesRef] are distinct and have been started, and a node
    is stopped only after it was started. *)
Definition sourcesInv (w : World) : Prop :=
  NoDup (startedSources (trace w))
  /\ (forall s, In s (startedSources (trace w)) -> (s < nextSourceId w)%nat)
  /\ (forall s, In s (audioSources w) -> In s (startedSources (trace w)))
  /\ NoDup (audioSources w)
  /\ stopsFollowStarts [] (trace w).

(** No time passed to [start], and no cursor, is negative. *)
Definition timesOk (w : World) : Prop :=
  (0 <= nextStartTime w)%Q
  /\ Forall (fun t => 0 <= t)%Q (scheduledStarts (trace w)).

(** Whether the [try] block of [startLiveSession] runs to its end. *)
Definition startCompletes (mode : ReactMode) (env : StartEnv) (w : World)
  : bool :=
  match fst (startLiveSession_try mode env w) with
  | Normal _ => true
  | Throw _ => false
  end.

(** Whether [startLiveSession] gets as far as asking for the microphone:
    the constructors before it succeed, or are not called. *)
Definition reachesMedia (env : StartEnv) (w : World) : bool :=
  match newGoogleGenAI env with
  | Throw _ => false
  | Normal _ =>
      (inputAudioCtx w
       || match newInputAudioContext env with
          | Normal _ => true
          | Throw _ => false
          end)
      && (outputAudioCtx w
          || match newOutputAudioContext env with
             | Normal _ => true
             | Throw _ => false
             end)
  end.

Definition isMessage (e : Event) : bool :=
  match e with
  | EvMessage _ _ _ => true
  | _ => false
  end.

(** The [catch] block of [startLiveSession] run on [err] in the world [v]
    that the [try] block left. *)
Definition caught (mode : ReactMode) (err : JsError) (v : World) : World :=
  stopAllStreams
    (setSession mode (ToError (orElse (message err) fallbackMessage)) v).

(** The worlds that the [try] block of [startLiveSession] goes through:
    after the session is set to connecting, once the audio contexts exist,
    once the microphone stream is held, once the screen stream is held, and
    at its end. *)
Definition connecting (mode : ReactMode) (w : World) : World :=
  setSession mode ToConnecting w.

Definition withContexts (mode : ReactMode) (w : World) : World :=
  set_outputAudioCtx true (set_inputAudioCtx true (connecting mode w)).

Definition withMic (mode : ReactMode) (mic : MediaStream) (w : World)
  : World :=
  set_micStream (Some mic) (withContexts mode w).

Definition withScreen (mode : ReactMode) (mic scr : MediaStream) (w : World)
  : World :=
  set_screenStream (Some scr) (withMic mode mic w).

Definition started (mode : ReactMode) (mic scr : MediaStream) (w : World)
  : World :=
  set_currentOutputTranscription ""
    (set_currentInputTranscription "" (withScreen mode mic scr w)).

Definition isNormal {A : Type} (c : Completion A) : bool :=
  match c with
  | Normal _ => true
  | Throw _ => false
  end.

(** ** The view

    What [App] returns for a session state and a transcript log, as far as
    it depends on them: the class of the status dot of the header, the
    button of the header, whether the video element, the overlay and the
    placeholder of the transcript are rendered, the bubbles of the
    transcript, the error box and the status line. *)

Inductive HeaderButton : Type :=
| StopSharing
| ShareScreen (disabled : bool) (label : string).

Record Bubble : Type := mkBubble {
  alignment : string;
  bubbleText : string;
  caption : string
}.

Record View : Type := mkView {
  statusDot : string;
  headerButton : HeaderButton;
  showsVideo : bool;
  showsLiveVision : bool;
  showsNoActivity : bool;
  bubbles : list Bubble;
  errorBox : option string;
  micAndVision : string
}.

Definition Status_eqb (a b : Status) : bool :=
  match a, b with
  | StatusIdle, StatusIdle => true
  | StatusConnecting, StatusConnecting => true
  | StatusConnected, StatusConnected => true
  | StatusError, StatusError => true
  | _, _ => false
  end.

Definition bubbleOf (t : TranscriptionItem) : Bubble :=
  match type t with
  | User => mkBubble "items-end" (text t) "You"
  | Model => mkBubble "items-start" (text t) "Gemini"
  end.

Definition App_view (session : SessionState)
    (transcriptions : list TranscriptionItem) : View :=
  mkView
    (if Status_eqb (status session) StatusConnected
     then "bg-green-500 animate-pulse"
     else if Status_eqb (status session) StatusConnecting
          then "bg-yellow-500 animate-pulse"
          else "bg-slate-600")
    (if isActive session then StopSharing
     else ShareScreen (Status_eqb (status session) StatusConnecting)
            (if Status_eqb (status session) StatusConnecting
             then "Connecting..." else "Share Screen & Talk"))
    (isScreenSharing session)
    (isActive session)
    (Nat.eqb (List.length transcriptions) 0)
    (map bubbleOf transcriptions)
    (match error session with
     | Some msg => if truthy msg then Some msg else None
     | None => None
     end)
    (if isActive session then "Active" else "Standby").

(** The view of a world, as last rendered. *)
Definition view (w : World) : View := App_view (session w) (transcriptions w).

(** ** The outgoing side

    The audio blocks and the video frames go to the session through
    [sessionPromiseRef.current?.then (s => s.sendRealtimeInput (...))].  A
    client is a world with that ref, the promises returned by
    [ai.live.connect] (numbered in the order of the starts), the calls of
    [sendRealtimeInput] made so far with the session they went to, and the
    size of the canvas. *)

Record Media : Type := mkMedia {
  data : option string;
  mimeType : string
}.

Inductive Promise : Type :=
| Pending (thens : list Media)
| Fulfilled
| Rejected.

Record Client : Type := mkClient {
  world : World;
  sessionPromiseRef : option nat;
  promises : list Promise;
  sent : list (nat * Media);
  canvas : N * N
}.

Definition initialClient : Client :=
  mkClient initialWorld None [] [] (300%N, 150%N).

Fixpoint setNth {A : Type} (n : nat) (x : A) (l : list A) : list A :=
  match l, n with
  | [], _ => []
  | _ :: rest, O => x :: rest
  | y :: rest, S n' => y :: setNth n' x rest
  end.

(** [sessionPromiseRef.current?.then (s => s.sendRealtimeInput ({ media
    }))]: nothing without a promise; the call is made when the promise is
    fulfilled, kept for later while it is pending, and never made once it is
    rejected. *)
Definition thenSend (m : Media) (c : Client) : Client :=
  match sessionPromiseRef c with
  | None => c
  | Some p =>
      match nth_error (promises c) p with
      | Some (Pending thens) =>
          mkClient (world c) (sessionPromiseRef c)
            (setNth p (Pending (thens ++ [m])) (promises c)) (sent c)
            (canvas c)
      | Some Fulfilled =>
          mkClient (world c) (sessionPromiseRef c) (promises c)
            (sent c ++ [(p, m)]) (canvas c)
      | Some Rejected => c
      | None => c
      end
  end.

(** The promise [p] of a connection settles. *)
Definition connectFulfilled (p : nat) (c : Client) : Client :=
  match nth_error (promises c) p with
  | Some (Pending thens) =>
      mkClient (world c) (sessionPromiseRef c)
        (setNth p Fulfilled (promises c))
        (sent c ++ map (fun m => (p, m)) thens) (canvas c)
  | _ => c
  end.

Definition connectRejected (p : nat) (c : Client) : Client :=
  match nth_error (promises c) p with
  | Some (Pending _) =>
      mkClient (world c) (sessionPromiseRef c)
        (setNth p Rejected (promises c)) (sent c) (canvas c)
  | _ => c
  end.

(** A handler of the world run in a client. *)
Definition inWorld (f : World -> World) (c : Client) : Client :=
  mkClient (f (world c)) (sessionPromiseRef c) (promises c) (sent c)
    (canvas c).

(** [String.prototype.split] on a one-character separator. *)
Fixpoint split (sep : ascii) (s : string) : list string :=
  match s with
  | EmptyString => [EmptyString]
  | String c rest =>
      if Ascii.eqb c sep then EmptyString :: split sep rest
      else match split sep rest with
           | [] => [String c EmptyString]
           | h :: t => String c h :: t
           end
  end.




Section Outgoing.

Variable mode : ReactMode.

(** [createBlob] of [./utils/audioUtils], which is not among the sources. *)
Variable Samples : Type.
Variable createBlob : Samples -> Media.

(** [startLiveSession] with its last assignment, [sessionPromiseRef.current
    = sessionPromise], made when the [try] block gets there. *)
Definition startLiveSession_client (env : StartEnv) (c : Client) : Client :=
  if startCompletes mode env (world c)
  then mkClient (startLiveSession mode env (world c))
         (Some (List.length (promises c))) (promises c ++ [Pending []])
         (sent c) (canvas c)
  else inWorld (startLiveSession mode env) c.

(** [scriptProcessor.onaudioprocess]. *)
Definition onaudioprocess (inputData : Samples) (c : Client) : Client :=
  thenSend (createBlob inputData) c.

(** The blocks handed to [onaudioprocess] one after the other. *)
Definition forward (blocks : list Samples) (c : Client) : Client :=
  fold_left (fun c b => onaudioprocess b c) blocks c.


End Outgoing.

(** The message [msg] without its audio payload. *)
Definition withoutAudio (msg : LiveServerMessage) : LiveServerMessage :=
  mkMessage None (interrupted msg) (inputTranscription msg)
    (outputTranscription msg) (turnComplete msg).

(** The session state of the world replaced, rendered and pending. *)
Definition withSession (s : SessionState) (ps : list SessionUpdate)
    (w : World) : World :=
  set_pendingSession ps (set_session s w).

(** An event that calls [setSession] with a new status or error message: a
    start, and an error of the channel. *)
Definition setsError (e : Event) : bool :=
  match e with
  | EvStartClick _ => true
  | EvError => true
  | _ => false
  end.

(** A stand-in for [createBlob] in the examples: a block is its list of
    samples, and the blob holds their count. *)
Definition sampleBlob (inputData : list Q) : Media :=
  mkMedia
    (Some (String (Ascii.ascii_of_nat (48 + List.length inputData)) ""))
    "audio/pcm;rate=16000".

(** * Properties *)

(** ** Records and traces *)

Lemma logs_nil (w : World) : logs [] w = w.
Proof. destruct w; unfold logs; simpl; rewrite app_nil_r; reflexivity. Qed.

Lemma logs_logs (a b : list Op) (w : World) :
  logs b (logs a w) = logs (a ++ b) w.
Proof. unfold logs; simpl; rewrite app_assoc; reflexivity. Qed.

Lemma fold_log {A : Type} (f : A -> Op) (l : list A) (w : World) :
  fold_left (fun w t => log (f t) w) l w = logs (map f l) w.
Proof.
  revert w; induction l as [|a l IH]; intro w; simpl.
  - symmetry; apply logs_nil.
  - rewrite IH. unfold logs, log; simpl. rewrite <- app_assoc. reflexivity.
Qed.

Lemma stopTracks_logs (s : MediaStream) (w : World) :
  stopTracks s w = logs (map TrackStop (getTracks s)) w.
Proof. apply fold_log. Qed.

Lemma stopSources_logs (w : World) :
  stopSources w = logs (map SourceStop (audioSources w)) w.
Proof. apply fold_log. Qed.

(** The whole effect of a teardown: the three refs are null, the set of
    sources is empty, and the trace has grown by [teardownOps]. *)
Lemma stopAllStreams_eq (w : World) :
  stopAllStreams w =
  mkWorld (session w) (transcriptions w) (pendingSession w)
    (pendingTranscriptions w) (inputAudioCtx w) (outputAudioCtx w)
    (nextStartTime w) [] (nextSourceId w) None None None
    (currentInputTranscription w) (currentOutputTranscription w)
    (trace w ++ teardownOps w).
Proof.
  destruct w as [se tr ps pt ic oc nst srcs nid scr mc fi ci co tc].
  unfold stopAllStreams, teardownOps.
  destruct scr as [s|], mc as [m|], fi as [id|]; simpl;
    rewrite ?stopTracks_logs, ?stopSources_logs; simpl;
    rewrite ?stopTracks_logs, ?stopSources_logs; simpl;
    unfold logs; simpl; f_equal;
    rewrite <- ?app_assoc; simpl; rewrite ?app_nil_r; reflexivity.
Qed.

Lemma teardownOps_stopped (w : World) :
  teardownOps (stopAllStreams w) = [].
Proof. rewrite stopAllStreams_eq. reflexivity. Qed.

Lemma stopAllStreams_idempotent (w : World) :
  stopAllStreams (stopAllStreams w) = stopAllStreams w.
Proof.
  rewrite (stopAllStreams_eq (stopAllStreams w)), teardownOps_stopped.
  rewrite stopAllStreams_eq; simpl. rewrite app_nil_r. reflexivity.
Qed.

Lemma stopAllStreams_alreadyIdle (w : World) :
  screenStream w = None -> micStream w = None -> frameInterval w = None ->
  audioSources w = [] -> stopAllStreams w = w.
Proof.
  intros Hs Hm Hf Ha. rewrite stopAllStreams_eq. unfold teardownOps.
  destruct w; simpl in *; subst; simpl. rewrite app_nil_r. reflexivity.
Qed.

(** ** Session updates *)

Lemma applySessionUpdate_ToIdle_idle (s : SessionState) :
  status s = StatusIdle -> isActive s = false -> isScreenSharing s = false ->
  applySessionUpdate ToIdle s = s.
Proof. destruct s; simpl; intros; subst; reflexivity. Qed.

Lemma applySessionUpdate_ToIdle_twice (s : SessionState) :
  applySessionUpdate ToIdle (applySessionUpdate ToIdle s)
  = applySessionUpdate ToIdle s.
Proof. reflexivity. Qed.

Lemma fold_session_snoc (us : list SessionUpdate) (u : SessionUpdate)
    (s : SessionState) :
  fold_left (fun prev u => applySessionUpdate u prev) (us ++ [u]) s
  = applySessionUpdate u
      (fold_left (fun prev u => applySessionUpdate u prev) us s).
Proof. rewrite fold_left_app. reflexivity. Qed.

Lemma session_render (dateNow : Z) (w : World) :
  session (render dateNow w) = renderedSession w.
Proof. reflexivity. Qed.

Lemma renderedSession_setSession (mode : ReactMode) (u : SessionUpdate)
    (w : World) :
  queuesRespectMode mode w ->
  renderedSession (setSession mode u w)
  = applySessionUpdate u (renderedSession w).
Proof.
  intro Hq. unfold renderedSession, setSession. destruct mode; simpl.
  - apply fold_session_snoc.
  - destruct (Hq eq_refl) as [-> _]. reflexivity.
Qed.

Lemma queuesRespectMode_setSession (mode : ReactMode) (u : SessionUpdate)
    (w : World) :
  queuesRespectMode mode w -> queuesRespectMode mode (setSession mode u w).
Proof.
  intros Hq Hm. subst mode. destruct (Hq eq_refl) as [Hs Ht].
  unfold setSession; simpl. auto.
Qed.

Lemma queuesRespectMode_stopAllStreams (mode : ReactMode) (w : World) :
  queuesRespectMode mode w -> queuesRespectMode mode (stopAllStreams w).
Proof. intros Hq Hm. rewrite stopAllStreams_eq; simpl. auto. Qed.

Lemma renderedSession_stopAllStreams (w : World) :
  renderedSession (stopAllStreams w) = renderedSession w.
Proof. rewrite stopAllStreams_eq. reflexivity. Qed.

Lemma renderedSession_handleStopSession (mode : ReactMode) (w : World) :
  queuesRespectMode mode w ->
  renderedSession (handleStopSession mode w)
  = applySessionUpdate ToIdle (renderedSession w).
Proof.
  intro Hq. unfold handleStopSession.
  rewrite renderedSession_setSession
    by (apply queuesRespectMode_stopAllStreams; exact Hq).
  rewrite renderedSession_stopAllStreams. reflexivity.
Qed.

(** What a stop leaves outside the React state. *)
Lemma handleStopSession_refs (mode : ReactMode) (w : World) :
  let w' := handleStopSession mode w in
  screenStream w' = None /\ micStream w' = None /\ frameInterval w' = None
  /\ audioSources w' = [] /\ trace w' = trace w ++ teardownOps w
  /\ nextStartTime w' = nextStartTime w.
Proof.
  unfold handleStopSession, setSession. rewrite stopAllStreams_eq.
  destruct mode; simpl; repeat split; reflexivity.
Qed.

Lemma render_refs (dateNow : Z) (w : World) :
  let w' := render dateNow w in
  screenStream w' = screenStream w /\ micStream w' = micStream w
  /\ frameInterval w' = frameInterval w /\ audioSources w' = audioSources w
  /\ trace w' = trace w /\ nextStartTime w' = nextStartTime w.
Proof. simpl. repeat split; reflexivity. Qed.

Lemma handleStopSession_idempotent (mode : ReactMode) (dateNow : Z)
    (w : World) :
  render dateNow (handleStopSession mode (handleStopSession mode w))
  = render dateNow (handleStopSession mode w).
Proof.
  unfold handleStopSession, setSession.
  destruct mode.
  - rewrite (stopAllStreams_eq (set_pendingSession _ _)).
    rewrite stopAllStreams_eq. unfold render, teardownOps; simpl.
    rewrite !fold_left_app; simpl. rewrite !app_nil_r. reflexivity.
  - rewrite (stopAllStreams_eq (set_session _ _)).
    rewrite stopAllStreams_eq. unfold render, teardownOps; simpl.
    rewrite !app_nil_r. reflexivity.
Qed.

(** ** Channel error (C1) *)

(** C1.  The claim says that after the channel's [onError] the session
    status is ['error'].  The handler queues the update to ['error'] and then
    calls [handleStopSession], whose update sets the status to ['idle']: once
    rendered, the session is idle, with the error message kept and the
    teardown done. *)
Theorem onerror_ends_idle (mode : ReactMode) (dateNow : Z) (w : World) :
  queuesRespectMode mode w ->
  let w' := render dateNow (onerror mode w) in
  status (session w') = StatusIdle
  /\ status (session w') <> StatusError
  /\ error (session w') = Some connectionLostMessage
  /\ isActive (session w') = false
  /\ screenStream w' = None /\ micStream w' = None
  /\ frameInterval w' = None /\ audioSources w' = []
  /\ trace w' = trace w ++ teardownOps w.
Proof.
  intros Hq w'.
  assert (Hs : session w' =
               applySessionUpdate ToIdle
                 (applySessionUpdate (ToError connectionLostMessage)
                    (renderedSession w))).
  { subst w'. rewrite session_render. unfold onerror.
    rewrite renderedSession_handleStopSession
      by (apply queuesRespectMode_setSession; exact Hq).
    rewrite renderedSession_setSession by exact Hq. reflexivity. }
  rewrite Hs; simpl.
  destruct (handleStopSession_refs mode
              (setSession mode (ToError connectionLostMessage) w))
    as (H1 & H2 & H3 & H4 & H5 & _).
  subst w'. unfold onerror.
  repeat split; try discriminate; simpl; try assumption.
  rewrite H5. unfold setSession; destruct mode; reflexivity.
Qed.

Lemma onerror_ends_idle_witness :
  status (session (render 9 (onerror Deferred (Sample.playing Deferred))))
  = StatusIdle
  /\ status (session (render 9 (onerror Immediate (Sample.playing Immediate))))
     = StatusIdle.
Proof.
  split.
  - apply (onerror_ends_idle Deferred 9 (Sample.playing Deferred)).
    intro H; discriminate H.
  - apply (onerror_ends_idle Immediate 9 (Sample.playing Immediate)).
    intros _. vm_compute. split; reflexivity.
Defined.

(** ** Stop (C8, C9) *)

Lemma handleStopSession_alreadyIdle (mode : ReactMode) (dateNow : Z)
    (w : World) :
  alreadyIdle w -> pendingSession w = [] ->
  render dateNow (handleStopSession mode w) = render dateNow w.
Proof.
  intros (Hs & Hm & Hf & Ha & Hst & Hact & Hshr) Hp.
  unfold handleStopSession.
  rewrite (stopAllStreams_alreadyIdle w Hs Hm Hf Ha).
  destruct w as [se tr ps pt ic oc nst srcs nid scr mc fi ci co tc].
  destruct se as [act mut shr st err]. simpl in *. subst.
  unfold setSession, render. destruct mode; reflexivity.
Qed.

(** C8.  A stop invoked when the session is already idle (no screen
    stream, no microphone stream, no frame timer, no playing source, status
    idle) adds no operation to the trace and leaves the rendered world as it
    was; and a stop after a stop changes nothing more, whatever the world. *)
Theorem stop_when_idle_changes_nothing (mode : ReactMode) (dateNow : Z)
    (w : World) :
  alreadyIdle w -> pendingSession w = [] ->
  trace (handleStopSession mode w) = trace w
  /\ render dateNow (handleStopSession mode w) = render dateNow w
  /\ (forall v : World,
        trace (handleStopSession mode (handleStopSession mode v))
        = trace (handleStopSession mode v)
        /\ render dateNow (handleStopSession mode (handleStopSession mode v))
           = render dateNow (handleStopSession mode v)).
Proof.
  intros Hidle Hp. split; [|split].
  - destruct Hidle as (Hs & Hm & Hf & Ha & _).
    unfold handleStopSession.
    rewrite (stopAllStreams_alreadyIdle w Hs Hm Hf Ha).
    unfold setSession; destruct mode; reflexivity.
  - apply handleStopSession_alreadyIdle; assumption.
  - intro v. split.
    + destruct (handleStopSession_refs mode (handleStopSession mode v))
        as (_ & _ & _ & _ & Ht & _).
      rewrite Ht. unfold teardownOps.
      destruct (handleStopSession_refs mode v) as (-> & -> & -> & -> & _).
      simpl. apply app_nil_r.
    + apply handleStopSession_idempotent.
Qed.

Lemma stop_when_idle_changes_nothing_witness :
  trace (handleStopSession Deferred initialWorld) = []
  /\ render 3 (handleStopSession Deferred initialWorld) = initialWorld.
Proof.
  assert (Hidle : alreadyIdle initialWorld)
    by (unfold alreadyIdle; simpl; repeat split; reflexivity).
  destruct (stop_when_idle_changes_nothing Deferred 3 initialWorld Hidle
              eq_refl) as (Ht & Hr & _).
  split; [exact Ht | exact Hr].
Defined.

(** C9.  When the screen video track ends by itself the handler is the
    stop of the button: once rendered the session is idle, every track of
    both streams has been stopped, the frame timer has been cleared, and
    every playing source has been stopped and the set emptied. *)
Theorem video_track_end_is_stop (mode : ReactMode) (dateNow : Z) (w : World) :
  queuesRespectMode mode w ->
  let w' := render dateNow (videoTrack_onended mode w) in
  videoTrack_onended mode w = stopButton_onClick mode w
  /\ status (session w') = StatusIdle
  /\ isActive (session w') = false
  /\ isScreenSharing (session w') = false
  /\ screenStream w' = None /\ micStream w' = None
  /\ frameInterval w' = None /\ audioSources w' = []
  /\ (forall t, In t (streamTracks (screenStream w)) ->
                In (TrackStop t) (trace w'))
  /\ (forall t, In t (streamTracks (micStream w)) ->
                In (TrackStop t) (trace w'))
  /\ (forall id, frameInterval w = Some id -> In (ClearInterval id) (trace w'))
  /\ (forall s, In s (audioSources w) -> In (SourceStop s) (trace w')).
Proof.
  intros Hq w'. subst w'. unfold videoTrack_onended, stopButton_onClick.
  destruct (handleStopSession_refs mode w) as (H1 & H2 & H3 & H4 & H5 & _).
  rewrite session_render, renderedSession_handleStopSession by exact Hq.
  simpl. rewrite H5. unfold teardownOps.
  repeat split; try assumption.
  - intros t Ht. apply in_or_app; right. apply in_or_app; left.
    apply in_map; exact Ht.
  - intros t Ht. apply in_or_app; right. apply in_or_app; right.
    apply in_or_app; left. apply in_map; exact Ht.
  - intros id Hid. rewrite Hid. apply in_or_app; right.
    apply in_or_app; right. apply in_or_app; right.
    apply in_or_app; left. left; reflexivity.
  - intros s Hs. apply in_or_app; right. apply in_or_app; right.
    apply in_or_app; right. apply in_or_app; right. apply in_map; exact Hs.
Qed.

Lemma video_track_end_is_stop_witness :
  let w' := render 9 (videoTrack_onended Deferred (Sample.playing Deferred)) in
  status (session w') = StatusIdle
  /\ trace w' =
     trace (Sample.playing Deferred)
     ++ [TrackStop 2%nat; TrackStop 1%nat; ClearInterval 7;
         SourceStop 0%nat; SourceStop 1%nat].
Proof.
  assert (Hq : queuesRespectMode Deferred (Sample.playing Deferred))
    by (intro H; discriminate H).
  destruct (video_track_end_is_stop Deferred 9 (Sample.playing Deferred) Hq)
    as (_ & Hst & _).
  split; [exact Hst | vm_compute; reflexivity].
Defined.

(** ** Failure to acquire the media at start (C2) *)

Lemma startLiveSession_mic_refused (mode : ReactMode) (env : StartEnv)
    (w : World) (e : JsError) :
  newGoogleGenAI env = Normal tt ->
  newInputAudioContext env = Normal tt ->
  newOutputAudioContext env = Normal tt ->
  getUserMedia env = Throw e ->
  startLiveSession mode env w = afterCatch mode e None w.
Proof.
  intros Hg Hi Ho Hm.
  unfold startLiveSession, startLiveSession_try, afterCatch, exec, tryCatch,
    bind, modify, gets, settle, when, ret.
  rewrite Hg, Hi, Ho, Hm.
  destruct w as [se tr ps pt ic oc nst srcs nid scr mc fi ci co tc].
  destruct mode, ic, oc; reflexivity.
Qed.

Lemma startLiveSession_screen_refused (mode : ReactMode) (env : StartEnv)
    (w : World) (mic : MediaStream) (e : JsError) :
  newGoogleGenAI env = Normal tt ->
  newInputAudioContext env = Normal tt ->
  newOutputAudioContext env = Normal tt ->
  getUserMedia env = Normal mic ->
  getDisplayMedia env = Throw e ->
  startLiveSession mode env w =
  afterCatch mode
    (if blockedByPolicy e then mkJsError "Error" blockedMessage else e)
    (Some mic) w.
Proof.
  intros Hg Hi Ho Hm Hd.
  unfold startLiveSession, startLiveSession_try, afterCatch, exec, tryCatch,
    bind, modify, gets, settle, when, ret, throw.
  rewrite Hg, Hi, Ho, Hm, Hd.
  destruct w as [se tr ps pt ic oc nst srcs nid scr mc fi ci co tc].
  destruct mode, ic, oc, (blockedByPolicy e); reflexivity.
Qed.

Lemma orElse_truthy (a b : string) :
  truthy b = true -> truthy (orElse a b) = true.
Proof. intro Hb. unfold orElse. destruct (truthy a) eqn:Ha; assumption. Qed.

Lemma afterCatch_facts (mode : ReactMode) (dateNow : Z) (err : JsError)
    (acquired : option MediaStream) (w : World) :
  queuesRespectMode mode w ->
  let w' := render dateNow (afterCatch mode err acquired w) in
  status (session w') = StatusError
  /\ error (session w') = Some (orElse (message err) fallbackMessage)
  /\ micStream w' = None /\ screenStream w' = None
  /\ frameInterval w' = None /\ audioSources w' = []
  /\ (forall t, In t (streamTracks acquired) -> In (TrackStop t) (trace w')).
Proof.
  intros Hq w'. subst w'. unfold afterCatch.
  rewrite session_render, stopAllStreams_eq.
  set (msg := orElse (message err) fallbackMessage).
  assert (Hs : renderedSession
                 (setSession mode (ToError msg)
                    (set_micStream
                       match acquired with
                       | Some m => Some m
                       | None => micStream w
                       end
                       (set_outputAudioCtx true
                          (set_inputAudioCtx true
                             (setSession mode ToConnecting w)))))
               = applySessionUpdate (ToError msg)
                   (applySessionUpdate ToConnecting (renderedSession w))).
  { unfold renderedSession, setSession. destruct mode; simpl.
    - rewrite !fold_left_app. reflexivity.
    - destruct (Hq eq_refl) as [-> _]. reflexivity. }
  repeat split.
  - unfold renderedSession in *; simpl in *.
    destruct mode; simpl in *; rewrite Hs; reflexivity.
  - unfold renderedSession in *; simpl in *.
    destruct mode; simpl in *; rewrite Hs; reflexivity.
  - intros t Ht. destruct acquired as [m|]; [|contradiction].
    unfold render, teardownOps, setSession; destruct mode; simpl;
      apply in_or_app; right; apply in_or_app; right;
      apply in_or_app; left; apply in_map; exact Ht.
Qed.

(** C2, as the code has it.  When the microphone or the screen stream is
    refused at start (the constructors before having succeeded), the failure
    is caught, the session's [error] holds a non-empty message (the
    permissions-policy message when the screen request failed with
    [NotAllowedError] or with a message naming the permissions policy,
    otherwise the message of the error, or the generic one when that is
    empty), the microphone stream already acquired is released and both
    stream refs are null, and the session status is ['error']. *)
Theorem start_failure_ends_in_error (mode : ReactMode) (dateNow : Z)
    (env : StartEnv) (w : World) (e : JsError) :
  queuesRespectMode mode w ->
  newGoogleGenAI env = Normal tt ->
  newInputAudioContext env = Normal tt ->
  newOutputAudioContext env = Normal tt ->
  getUserMedia env = Throw e
  \/ (exists mic, getUserMedia env = Normal mic
                  /\ getDisplayMedia env = Throw e) ->
  let w' := render dateNow (startLiveSession mode env w) in
  status (session w') = StatusError
  /\ (exists msg,
        error (session w') = Some msg /\ truthy msg = true
        /\ (getUserMedia env = Throw e ->
            msg = orElse (message e) fallbackMessage)
        /\ (forall mic, getUserMedia env = Normal mic ->
            msg = if blockedByPolicy e then blockedMessage
                  else orElse (message e) fallbackMessage))
  /\ micStream w' = None /\ screenStream w' = None
  /\ (forall mic t, getUserMedia env = Normal mic -> In t (getTracks mic) ->
                    In (TrackStop t) (trace w')).
Proof.
  intros Hq Hg Hi Ho [Hm | (mic & Hm & Hd)] w'; subst w'.
  - rewrite (startLiveSession_mic_refused mode env w e Hg Hi Ho Hm).
    destruct (afterCatch_facts mode dateNow e None w Hq)
      as (H1 & H2 & H3 & H4 & _).
    split; [exact H1|]. split; [|split; [exact H3|split; [exact H4|]]].
    + exists (orElse (message e) fallbackMessage).
      split; [exact H2|]. split; [apply orElse_truthy; reflexivity|].
      split; [reflexivity|]. intros mic Hmic. congruence.
    + intros mic t Hmic. congruence.
  - rewrite (startLiveSession_screen_refused mode env w mic e Hg Hi Ho Hm Hd).
    destruct (afterCatch_facts mode dateNow
                (if blockedByPolicy e
                 then mkJsError "Error" blockedMessage else e)
                (Some mic) w Hq)
      as (H1 & H2 & H3 & H4 & _ & _ & H7).
    split; [exact H1|]. split; [|split; [exact H3|split; [exact H4|]]].
    + eexists. split; [exact H2|].
      split; [apply orElse_truthy; reflexivity|].
      split; [intro Hc; congruence|].
      intros mic' _. destruct (blockedByPolicy e); reflexivity.
    + intros mic' t Hmic Ht. apply H7. simpl.
      assert (mic' = mic) by congruence. subst mic'. exact Ht.
Qed.

Lemma start_failure_ends_in_error_witness :
  let w' :=
    render 1 (startLiveSession Deferred Sample.screenRefused initialWorld) in
  status (session w') = StatusError
  /\ error (session w') = Some blockedMessage
  /\ In (TrackStop 1%nat) (trace w').
Proof.
  assert (Hq : queuesRespectMode Deferred initialWorld)
    by (intro H; discriminate H).
  destruct (start_failure_ends_in_error Deferred 1 Sample.screenRefused
              initialWorld (mkJsError "NotAllowedError" "Permission denied")
              Hq eq_refl eq_refl eq_refl
              (or_intror (ex_intro _ Sample.mic (conj eq_refl eq_refl))))
    as (Hst & (msg & Hmsg & _ & _ & Hblocked) & _ & _ & Htracks).
  split; [exact Hst|]. split.
  - rewrite Hmsg. f_equal. exact (Hblocked Sample.mic eq_refl).
  - apply (Htracks Sample.mic 1%nat eq_refl). left; reflexivity.
Defined.

(** C2 as stated fails: the microphone is refused on the first start, and
    the session status is ['error'], not ['idle'] (in both modes). *)
Lemma start_failure_is_not_idle :
  getUserMedia Sample.micRefused
  = Throw (mkJsError "NotAllowedError" "Permission denied")
  /\ status (session (render 1 (startLiveSession Deferred Sample.micRefused
                                  initialWorld))) = StatusError
  /\ status (session (render 1 (startLiveSession Immediate Sample.micRefused
                                  initialWorld))) = StatusError
  /\ status (session (render 1 (startLiveSession Deferred Sample.micRefused
                                  initialWorld))) <> StatusIdle.
Proof. repeat split; try reflexivity. vm_compute. discriminate. Qed.

(** ** The playback part of [onmessage] *)

Ltac unfold_handler :=
  unfold onmessage, exec, bind, when, modify, gets, settle, ret,
    setTranscriptions, stopSources.

Ltac split_truthy :=
  repeat (match goal with
          | |- context [truthy ?x] => destruct (truthy x)
          end; simpl).

Lemma decodedPayload_Some (msg : LiveServerMessage) (w : World) (d : string) :
  decodedPayload msg w = Some d ->
  modelTurnAudio msg = Some d /\ truthy d = true /\ outputAudioCtx w = true.
Proof.
  unfold decodedPayload. destruct (modelTurnAudio msg) as [b|]; [|discriminate].
  destruct (truthy b) eqn:Hb, (outputAudioCtx w) eqn:Hc; simpl;
    try discriminate.
  intro H; injection H as ->. auto.
Qed.

Lemma decodedPayload_None (msg : LiveServerMessage) (w : World) :
  decodedPayload msg w = None ->
  modelTurnAudio msg = None
  \/ exists b, modelTurnAudio msg = Some b
               /\ truthy b && outputAudioCtx w = false.
Proof.
  unfold decodedPayload. destruct (modelTurnAudio msg) as [b|]; [|auto].
  destruct (truthy b && outputAudioCtx w) eqn:Hb; [discriminate|].
  intros _. right. exists b. auto.
Qed.

(** No payload is decoded: the handler completes, and the playback state
    changes only if the message is an interruption. *)
Lemma onmessage_no_audio (mode : ReactMode)
    (decodeAudioData : string -> Completion Q) (currentTime : Q) (dateNow : Z)
    (msg : LiveServerMessage) (w : World) :
  decodedPayload msg w = None ->
  exists w',
    onmessage mode decodeAudioData currentTime dateNow msg w = (Normal tt, w')
    /\ outputAudioCtx w' = outputAudioCtx w
    /\ nextStartTime w' =
       (if interrupted msg then 0%Q else nextStartTime w)
    /\ audioSources w' = (if interrupted msg then [] else audioSources w)
    /\ trace w' =
       trace w
       ++ (if interrupted msg then map SourceStop (audioSources w) else []).
Proof.
  intro Hd. apply decodedPayload_None in Hd.
  destruct msg as [au it inp outp tcm]; simpl in *.
  unfold_handler; simpl.
  destruct Hd as [-> | (b & -> & Hb)]; [|rewrite Hb];
    destruct it, inp, outp, tcm, mode; simpl; rewrite ?fold_log; simpl;
    split_truthy; simpl;
    eexists; (split; [reflexivity|]); simpl;
    rewrite ?app_nil_r; repeat split; reflexivity.
Qed.

(** A payload is decoded: the buffer is started at
    [Math_max (nextStartTime w) currentTime] and the cursor is that start
    plus the duration, unless the same message is an interruption. *)
Lemma onmessage_audio (mode : ReactMode)
    (decodeAudioData : string -> Completion Q) (currentTime : Q) (dateNow : Z)
    (msg : LiveServerMessage) (w : World) (d : string) (q : Q) :
  decodedPayload msg w = Some d ->
  decodeAudioData d = Normal q ->
  let start := Math_max (nextStartTime w) currentTime in
  let playing := Set_add (nextSourceId w) (audioSources w) in
  exists w',
    onmessage mode decodeAudioData currentTime dateNow msg w = (Normal tt, w')
    /\ outputAudioCtx w' = true
    /\ nextStartTime w' =
       (if interrupted msg then 0%Q else (start + q)%Q)
    /\ audioSources w' = (if interrupted msg then [] else playing)
    /\ trace w' =
       trace w ++ [SourceStart (nextSourceId w) start]
       ++ (if interrupted msg then map SourceStop playing else []).
Proof.
  intros Hd Hq. apply decodedPayload_Some in Hd. destruct Hd as (Ha & Ht & Hc).
  destruct msg as [au it inp outp tcm]; simpl in *. subst au.
  unfold_handler; simpl. rewrite Ht, Hc; simpl. rewrite Hq; simpl.
  destruct it, inp, outp, tcm, mode; simpl; rewrite ?fold_log; simpl;
    split_truthy; simpl;
    eexists; (split; [reflexivity|]); simpl;
    rewrite <- ?app_assoc; simpl; repeat split; assumption || reflexivity.
Qed.

(** The decoder throws: the handler stops there, with the cursor already
    moved up to the clock and nothing else changed. *)
Lemma onmessage_decode_throws (mode : ReactMode)
    (decodeAudioData : string -> Completion Q) (currentTime : Q) (dateNow : Z)
    (msg : LiveServerMessage) (w : World) (d : string) (e : JsError) :
  decodedPayload msg w = Some d ->
  decodeAudioData d = Throw e ->
  onmessage mode decodeAudioData currentTime dateNow msg w
  = (Throw e,
     set_nextStartTime (Math_max (nextStartTime w) currentTime) w).
Proof.
  intros Hd Hq. apply decodedPayload_Some in Hd. destruct Hd as (Ha & Ht & Hc).
  destruct msg as [au it inp outp tcm]; simpl in *. subst au.
  unfold_handler; simpl. rewrite Ht, Hc; simpl. rewrite Hq; simpl.
  reflexivity.
Qed.

(** ** What leaves the playback schedule alone *)

Lemma scheduledStarts_app (a b : list Op) :
  scheduledStarts (a ++ b) = scheduledStarts a ++ scheduledStarts b.
Proof.
  induction a as [|o a IH]; simpl; [reflexivity|].
  destruct o; simpl; rewrite IH; reflexivity.
Qed.

Lemma scheduledStarts_map_SourceStop (l : list SourceId) :
  scheduledStarts (map SourceStop l) = [].
Proof. induction l; simpl; auto. Qed.

Lemma scheduledStarts_map_TrackStop (l : list TrackId) :
  scheduledStarts (map TrackStop l) = [].
Proof. induction l; simpl; auto. Qed.

Lemma scheduledStarts_teardownOps (w : World) :
  scheduledStarts (teardownOps w) = [].
Proof.
  unfold teardownOps. rewrite !scheduledStarts_app.
  rewrite !scheduledStarts_map_TrackStop, scheduledStarts_map_SourceStop.
  destruct (frameInterval w); reflexivity.
Qed.

Lemma samePlayback_refl (w : World) : samePlayback w w.
Proof. repeat split; auto. Qed.

Lemma samePlayback_trans (a b c : World) :
  samePlayback a b -> samePlayback b c -> samePlayback a c.
Proof.
  intros (H1 & H2 & H3) (H4 & H5 & H6). repeat split.
  - congruence.
  - congruence.
  - auto.
Qed.

Lemma samePlayback_setSession (mode : ReactMode) (u : SessionUpdate)
    (w : World) : samePlayback w (setSession mode u w).
Proof. unfold setSession; destruct mode; repeat split; auto. Qed.

Lemma samePlayback_stopAllStreams (w : World) :
  samePlayback w (stopAllStreams w).
Proof.
  rewrite stopAllStreams_eq. repeat split; simpl; auto.
  rewrite scheduledStarts_app, scheduledStarts_teardownOps.
  apply app_nil_r.
Qed.

Lemma samePlayback_handleStopSession (mode : ReactMode) (w : World) :
  samePlayback w (handleStopSession mode w).
Proof.
  unfold handleStopSession.
  eapply samePlayback_trans;
    [apply samePlayback_stopAllStreams | apply samePlayback_setSession].
Qed.

Section KeepsPlayback.

Context {A B : Type}.

Lemma keeps_ret (a : A) : keepsPlayback (ret a).
Proof. intro w. apply samePlayback_refl. Qed.

Lemma keeps_throw (e : JsError) : keepsPlayback (@throw A e).
Proof. intro w. apply samePlayback_refl. Qed.

Lemma keeps_settle (c : Completion A) : keepsPlayback (settle c).
Proof. intro w. apply samePlayback_refl. Qed.

Lemma keeps_gets (f : World -> A) : keepsPlayback (gets f).
Proof. intro w. apply samePlayback_refl. Qed.

Lemma keeps_bind (m : M A) (k : A -> M B) :
  keepsPlayback m -> (forall a, keepsPlayback (k a)) ->
  keepsPlayback (bind m k).
Proof.
  intros Hm Hk w. unfold bind. specialize (Hm w).
  destruct (m w) as [[a|e] w1]; simpl in *.
  - eapply samePlayback_trans; [exact Hm | apply Hk].
  - exact Hm.
Qed.

Lemma keeps_tryCatch (m : M A) (h : JsError -> M A) :
  keepsPlayback m -> (forall e, keepsPlayback (h e)) ->
  keepsPlayback (tryCatch m h).
Proof.
  intros Hm Hh w. unfold tryCatch. specialize (Hm w).
  destruct (m w) as [[a|e] w1]; simpl in *.
  - exact Hm.
  - eapply samePlayback_trans; [exact Hm | apply Hh].
Qed.

End KeepsPlayback.

Lemma keeps_modify (f : World -> World) :
  (forall w, samePlayback w (f w)) -> keepsPlayback (modify f).
Proof. intros Hf w. apply Hf. Qed.

Lemma keeps_when (b : bool) (m : M unit) :
  keepsPlayback m -> keepsPlayback (when b m).
Proof. intro Hm. destruct b; [exact Hm | apply keeps_ret]. Qed.

Create HintDb playback.
#[local] Hint Resolve keeps_ret keeps_throw keeps_settle keeps_gets
  keeps_modify keeps_when samePlayback_setSession samePlayback_stopAllStreams
  samePlayback_handleStopSession samePlayback_refl : playback.

Ltac keeps :=
  repeat first
    [ apply keeps_bind; [|intro]
    | apply keeps_tryCatch; [|intro]
    | apply keeps_when
    | apply keeps_modify; intro
    | solve [auto with playback]
    | solve [repeat split; auto] ].

Lemma startLiveSession_samePlayback (mode : ReactMode) (env : StartEnv)
    (w : World) : samePlayback w (startLiveSession mode env w).
Proof.
  unfold startLiveSession, exec.
  assert (H : keepsPlayback
                (tryCatch (startLiveSession_try mode env)
                   (fun err =>
                      bind
                        (modify
                           (setSession mode
                              (ToError (orElse (message err) fallbackMessage))))
                        (fun _ => modify stopAllStreams)))).
  { unfold startLiveSession_try. keeps.
    all: match goal with
         | |- context [blockedByPolicy ?e] => destruct (blockedByPolicy e)
         | |- context [getVideoTracks ?s] => destruct (getVideoTracks s)
         | |- samePlayback _ _ => repeat split; auto
         end; auto with playback. }
  apply H.
Qed.

(** ** [Math.max] *)

Lemma Math_max_l (a b : Q) : (b <= a)%Q -> Math_max a b = a.
Proof.
  intro H. unfold Math_max.
  rewrite (proj2 (Qle_bool_iff b a) H). reflexivity.
Qed.

Lemma Math_max_r (a b : Q) : (a < b)%Q -> Math_max a b = b.
Proof.
  intro H. unfold Math_max. destruct (Qle_bool b a) eqn:E; [|reflexivity].
  apply Qle_bool_iff in E. exfalso. apply (Qlt_not_le _ _ H E).
Qed.

Lemma Math_max_ge_l (a b : Q) : (a <= Math_max a b)%Q.
Proof.
  destruct (Qlt_le_dec a b) as [H|H].
  - rewrite (Math_max_r a b H). apply Qlt_le_weak; exact H.
  - rewrite (Math_max_l a b H). apply Qle_refl.
Qed.

Lemma Math_max_ge_r (a b : Q) : (b <= Math_max a b)%Q.
Proof.
  destruct (Qlt_le_dec a b) as [H|H].
  - rewrite (Math_max_r a b H). apply Qle_refl.
  - rewrite (Math_max_l a b H). exact H.
Qed.

(** ** Events and the playback schedule *)

Lemma quietEvent_message (currentTime : Q) (dateNow : Z)
    (msg : LiveServerMessage) (w : World) :
  quietEvent (EvMessage currentTime dateNow msg) = true ->
  interrupted msg = false /\ decodedPayload msg w = None.
Proof.
  simpl. unfold decodedPayload. destruct (interrupted msg); simpl;
    [discriminate|].
  destruct (modelTurnAudio msg) as [b|]; [|auto].
  destruct (truthy b); simpl; [discriminate|auto].
Qed.

Lemma step_quiet (mode : ReactMode)
    (decodeAudioData : string -> Completion Q) (e : Event) (w : World) :
  quietEvent e = true -> samePlayback w (step mode decodeAudioData w e).
Proof.
  intro Hq. destruct e as [env| |id|ct ts msg| | | |s|ts]; simpl.
  - apply startLiveSession_samePlayback.
  - apply samePlayback_handleStopSession.
  - unfold onopen, setSession. destruct mode; repeat split; auto.
  - destruct (quietEvent_message ct ts msg w Hq) as [Hi Hd].
    destruct (onmessage_no_audio mode decodeAudioData ct ts msg w Hd)
      as (w' & Hw & Hc & Hn & _ & Ht).
    unfold exec. rewrite Hw; simpl. rewrite Hi in *.
    repeat split.
    + exact Hn.
    + rewrite Ht, app_nil_r. reflexivity.
    + intro H. rewrite Hc. exact H.
  - unfold onerror. eapply samePlayback_trans;
      [apply samePlayback_setSession | apply samePlayback_handleStopSession].
  - apply samePlayback_handleStopSession.
  - apply samePlayback_handleStopSession.
  - repeat split; auto.
  - repeat split; auto.
Qed.

Lemma run_quiet (mode : ReactMode)
    (decodeAudioData : string -> Completion Q) (evs : list Event) (w : World) :
  forallb quietEvent evs = true ->
  samePlayback w (run mode decodeAudioData evs w).
Proof.
  revert w. induction evs as [|e evs IH]; intros w H; simpl in *.
  - apply samePlayback_refl.
  - apply andb_true_iff in H. destruct H as [He Hevs].
    eapply samePlayback_trans; [apply step_quiet; exact He|].
    apply IH; exact Hevs.
Qed.

(** One event either does not lower the cursor, or is an interruption that
    sets it to 0. *)
Lemma step_cursor (mode : ReactMode)
    (decodeAudioData : string -> Completion Q) :
  (forall d q, decodeAudioData d = Normal q -> (0 <= q)%Q) ->
  forall (e : Event) (w : World),
    (nextStartTime w <= nextStartTime (step mode decodeAudioData w e))%Q
    \/ (isInterruption e = true
        /\ nextStartTime (step mode decodeAudioData w e) = 0%Q).
Proof.
  intros Hdur e w.
  destruct (quietEvent e) eqn:Hq.
  { left. destruct (step_quiet mode decodeAudioData e w Hq) as (-> & _).
    apply Qle_refl. }
  destruct e as [env| |id|ct ts msg| | | |s|ts]; try discriminate Hq.
  simpl. unfold exec.
  destruct (decodedPayload msg w) as [d|] eqn:Hd.
  - destruct (decodeAudioData d) as [q|err] eqn:Hdec.
    + destruct (onmessage_audio mode decodeAudioData ct ts msg w d q Hd Hdec)
        as (w' & Hw & _ & Hn & _).
      rewrite Hw; simpl. rewrite Hn.
      destruct (interrupted msg); [right; auto|left].
      specialize (Hdur d q Hdec).
      pose proof (Math_max_ge_l (nextStartTime w) ct). lra.
    + rewrite (onmessage_decode_throws mode decodeAudioData ct ts msg w d err
                 Hd Hdec); simpl.
      left. apply Math_max_ge_l.
  - destruct (onmessage_no_audio mode decodeAudioData ct ts msg w Hd)
      as (w' & Hw & _ & Hn & _).
    rewrite Hw; simpl. rewrite Hn.
    destruct (interrupted msg); [right; auto|left; apply Qle_refl].
Qed.

(** ** The playback cursor (C7) *)

(** C7.  With non-negative buffer durations, whatever the clock, no event
    lowers the playback cursor [nextStartTime], save a message with the
    [interrupted] flag, which leaves it at 0 when it lowers it; along any run
    without such a message the cursor never decreases. *)
Theorem cursor_never_decreases (mode : ReactMode)
    (decodeAudioData : string -> Completion Q) :
  (forall d q, decodeAudioData d = Normal q -> (0 <= q)%Q) ->
  forall w : World,
    (forall e, isInterruption e = false ->
       (nextStartTime w <= nextStartTime (step mode decodeAudioData w e))%Q)
    /\ (forall e,
          (nextStartTime (step mode decodeAudioData w e) < nextStartTime w)%Q ->
          isInterruption e = true
          /\ nextStartTime (step mode decodeAudioData w e) = 0%Q)
    /\ (forall evs, forallb (fun e => negb (isInterruption e)) evs = true ->
          (nextStartTime w
           <= nextStartTime (run mode decodeAudioData evs w))%Q).
Proof.
  intros Hdur w. split; [|split].
  - intros e He.
    destruct (step_cursor mode decodeAudioData Hdur e w) as [H|[H _]];
      [exact H | congruence].
  - intros e Hlt.
    destruct (step_cursor mode decodeAudioData Hdur e w) as [H|H];
      [exfalso; apply (Qlt_not_le _ _ Hlt H) | exact H].
  - intro evs. revert w. induction evs as [|e evs IH]; intros w H; simpl in *.
    + apply Qle_refl.
    + apply andb_true_iff in H. destruct H as [He Hevs].
      apply negb_true_iff in He.
      destruct (step_cursor mode decodeAudioData Hdur e w) as [Hs|[Hs _]];
        [|congruence].
      eapply Qle_trans; [exact Hs | apply IH; exact Hevs].
Qed.

Lemma sample_durations_nonnegative (d : string) (q : Q) :
  Sample.decodeAudioData d = Normal q -> (0 <= q)%Q.
Proof.
  unfold Sample.decodeAudioData. destruct (String.eqb d "bad"); [discriminate|].
  intro H; injection H as <-. unfold Qle; simpl. lia.
Qed.

Lemma cursor_never_decreases_witness :
  (nextStartTime (Sample.connected Deferred)
   <= nextStartTime (Sample.playing Deferred))%Q.
Proof.
  destruct (cursor_never_decreases Deferred Sample.decodeAudioData
              sample_durations_nonnegative (Sample.connected Deferred))
    as (_ & _ & Hrun).
  apply (Hrun [EvMessage 0 1 (Sample.audioDelta "ab");
               EvMessage 0 2 (Sample.audioDelta "abcd")]).
  reflexivity.
Defined.

(** ** Scheduling of decoded buffers (C3) *)

Lemma decodedPayload_intro (msg : LiveServerMessage) (w : World) (d : string) :
  modelTurnAudio msg = Some d -> truthy d = true -> outputAudioCtx w = true ->
  decodedPayload msg w = Some d.
Proof. unfold decodedPayload. intros -> -> ->. reflexivity. Qed.

Lemma run_snoc (mode : ReactMode) (decodeAudioData : string -> Completion Q)
    (evs : list Event) (e : Event) (w : World) :
  run mode decodeAudioData (evs ++ [e]) w
  = step mode decodeAudioData (run mode decodeAudioData evs w) e.
Proof. unfold run. rewrite fold_left_app. reflexivity. Qed.

(** C3, as the code has it.  An audio message that is decoded is started at
    [Math_max nextStartTime currentTime], and the cursor becomes that start
    plus the duration of the buffer.  For two such messages in succession,
    with only quiet events between them and no interruption: the second start
    is not before the first; it is not before the cursor left by the first
    (its start plus its duration); it is that cursor when the clock has not
    passed it, and the clock time otherwise. *)
Theorem playback_schedule (mode : ReactMode)
    (decodeAudioData : string -> Completion Q) (w : World)
    (ct1 : Q) (ts1 : Z) (m1 : LiveServerMessage) (d1 : string) (q1 : Q)
    (mid : list Event)
    (ct2 : Q) (ts2 : Z) (m2 : LiveServerMessage) (d2 : string) (q2 : Q) :
  outputAudioCtx w = true ->
  modelTurnAudio m1 = Some d1 -> truthy d1 = true ->
  decodeAudioData d1 = Normal q1 -> (0 <= q1)%Q ->
  interrupted m1 = false ->
  forallb quietEvent mid = true ->
  modelTurnAudio m2 = Some d2 -> truthy d2 = true ->
  decodeAudioData d2 = Normal q2 ->
  let s1 := Math_max (nextStartTime w) ct1 in
  let s2 := Math_max (s1 + q1)%Q ct2 in
  let w1 := step mode decodeAudioData w (EvMessage ct1 ts1 m1) in
  let w2 :=
    run mode decodeAudioData
      (EvMessage ct1 ts1 m1 :: mid ++ [EvMessage ct2 ts2 m2]) w in
  onmessage mode decodeAudioData ct1 ts1 m1 w = (Normal tt, w1)
  /\ scheduledStarts (trace w1) = scheduledStarts (trace w) ++ [s1]
  /\ nextStartTime w1 = (s1 + q1)%Q
  /\ scheduledStarts (trace w2) = scheduledStarts (trace w) ++ [s1; s2]
  /\ (interrupted m2 = false -> nextStartTime w2 = (s2 + q2)%Q)
  /\ (s1 <= s2)%Q
  /\ (s1 + q1 <= s2)%Q
  /\ ((ct2 <= s1 + q1)%Q -> s2 = (s1 + q1)%Q)
  /\ ((s1 + q1 < ct2)%Q -> s2 = ct2).
Proof.
  intros Hc Ha1 Ht1 Hd1 Hq1 Hi1 Hmid Ha2 Ht2 Hd2 s1 s2 w1 w2.
  pose proof (decodedPayload_intro m1 w d1 Ha1 Ht1 Hc) as Hp1.
  destruct (onmessage_audio mode decodeAudioData ct1 ts1 m1 w d1 q1 Hp1 Hd1)
    as (v1 & Hv1 & Hc1 & Hn1 & _ & Htr1).
  rewrite Hi1 in Hn1, Htr1.
  assert (Hw1 : w1 = v1) by (subst w1; simpl; unfold exec; rewrite Hv1;
                             reflexivity).
  set (wm := run mode decodeAudioData mid w1).
  destruct (run_quiet mode decodeAudioData mid w1 Hmid) as (Hnm & Htm & Hcm).
  fold wm in Hnm, Htm, Hcm.
  assert (Hcwm : outputAudioCtx wm = true)
    by (apply Hcm; rewrite Hw1; exact Hc1).
  pose proof (decodedPayload_intro m2 wm d2 Ha2 Ht2 Hcwm) as Hp2.
  destruct (onmessage_audio mode decodeAudioData ct2 ts2 m2 wm d2 q2 Hp2 Hd2)
    as (v2 & Hv2 & _ & Hn2 & _ & Htr2).
  assert (Hw2 : w2 = v2).
  { subst w2. change (EvMessage ct1 ts1 m1 :: mid ++ [EvMessage ct2 ts2 m2])
      with ((EvMessage ct1 ts1 m1 :: mid) ++ [EvMessage ct2 ts2 m2]).
    rewrite run_snoc.
    change (run mode decodeAudioData (EvMessage ct1 ts1 m1 :: mid) w) with wm.
    change (step mode decodeAudioData wm (EvMessage ct2 ts2 m2))
      with (exec (onmessage mode decodeAudioData ct2 ts2 m2) wm).
    unfold exec. rewrite Hv2. reflexivity. }
  assert (Hnw1 : nextStartTime w1 = (s1 + q1)%Q)
    by (rewrite Hw1, Hn1; reflexivity).
  assert (Hs1 : scheduledStarts (trace w1) = scheduledStarts (trace w) ++ [s1]).
  { rewrite Hw1, Htr1. rewrite !scheduledStarts_app. reflexivity. }
  repeat split.
  - rewrite Hw1. exact Hv1.
  - exact Hs1.
  - exact Hnw1.
  - rewrite Hw2, Htr2. rewrite !scheduledStarts_app. rewrite Htm, Hs1.
    rewrite Hnm, Hnw1. simpl.
    destruct (interrupted m2); simpl;
      rewrite ?scheduledStarts_map_SourceStop, <- app_assoc; reflexivity.
  - intro Hi2. rewrite Hw2, Hn2, Hi2, Hnm, Hnw1. reflexivity.
  - pose proof (Math_max_ge_l (s1 + q1)%Q ct2). fold s2 in H. lra.
  - apply Math_max_ge_l.
  - intro H. apply Math_max_l. exact H.
  - intro H. apply Math_max_r. exact H.
Qed.

Lemma playback_schedule_witness :
  scheduledStarts (trace (Sample.playing Immediate))
  = [Math_max 0 0; Math_max (Math_max 0 0 + (2 # 2)) 0].
Proof.
  destruct (playback_schedule Immediate Sample.decodeAudioData
              (Sample.connected Immediate)
              0 1 (Sample.audioDelta "ab") "ab" (2 # 2) []
              0 2 (Sample.audioDelta "abcd") "abcd" (4 # 2)
              eq_refl eq_refl eq_refl eq_refl
              ltac:(unfold Qle; simpl; lia)
              eq_refl eq_refl eq_refl eq_refl eq_refl)
    as (_ & _ & _ & H & _).
  exact H.
Defined.

(** C3 as stated fails: a buffer of one second is started at 0, so that
    the cursor is 1; the next payload arrives when the clock is at 5 and is
    started at 5, not at the prior cursor. *)
Lemma start_after_a_gap_is_the_clock :
  let w0 := Sample.connected Deferred in
  let w1 :=
    run Deferred Sample.decodeAudioData
      [EvMessage 0 1 (Sample.audioDelta "ab")] w0 in
  let w2 :=
    run Deferred Sample.decodeAudioData
      [EvMessage 5 2 (Sample.audioDelta "ab")] w1 in
  scheduledStarts (trace w1) = [0%Q]
  /\ (nextStartTime w1 == 1)%Q
  /\ scheduledStarts (trace w2) = [0%Q; 5%Q]
  /\ ~ (5 == nextStartTime w1)%Q.
Proof.
  repeat split; try (vm_compute; reflexivity).
  vm_compute. discriminate.
Qed.

Lemma nondecreasingFrom_weaken (lo lo' : Q) (l : list Q) :
  (lo <= lo')%Q -> nondecreasingFrom lo' l -> nondecreasingFrom lo l.
Proof.
  destruct l as [|x l]; simpl; [auto|].
  intros H [H1 H2]. split; [lra | exact H2].
Qed.

Lemma step_starts (mode : ReactMode)
    (decodeAudioData : string -> Completion Q) :
  (forall d q, decodeAudioData d = Normal q -> (0 <= q)%Q) ->
  forall (e : Event) (w : World),
    isInterruption e = false ->
    let w' := step mode decodeAudioData w e in
    exists new,
      scheduledStarts (trace w') = scheduledStarts (trace w) ++ new
      /\ nondecreasingFrom (nextStartTime w) new
      /\ (forall x, In x new -> (x <= nextStartTime w')%Q)
      /\ (nextStartTime w <= nextStartTime w')%Q.
Proof.
  intros Hdur e w Hi w'. subst w'.
  destruct (quietEvent e) eqn:Hq.
  { destruct (step_quiet mode decodeAudioData e w Hq) as (Hn & Ht & _).
    exists []. rewrite Ht, Hn, app_nil_r. simpl.
    repeat split; try apply Qle_refl. intros x []. }
  destruct e as [env| |id|ct ts msg| | | |s|ts]; try discriminate Hq.
  simpl in Hi. simpl. unfold exec.
  destruct (decodedPayload msg w) as [d|] eqn:Hd.
  - destruct (decodeAudioData d) as [q|err] eqn:Hdec.
    + destruct (onmessage_audio mode decodeAudioData ct ts msg w d q Hd Hdec)
        as (w' & Hw & _ & Hn & _ & Ht).
      rewrite Hw; simpl. rewrite Hi in Hn, Ht. rewrite Hn, Ht.
      specialize (Hdur d q Hdec).
      pose proof (Math_max_ge_l (nextStartTime w) ct) as Hge.
      exists [Math_max (nextStartTime w) ct].
      rewrite !scheduledStarts_app. simpl.
      repeat split; try lra.
      intros x [<-|[]]. lra.
    + rewrite (onmessage_decode_throws mode decodeAudioData ct ts msg w d err
                 Hd Hdec); simpl.
      exists []. rewrite app_nil_r. simpl.
      repeat split; try apply Math_max_ge_l. intros x [].
  - destruct (onmessage_no_audio mode decodeAudioData ct ts msg w Hd)
      as (w' & Hw & _ & Hn & _ & Ht).
    rewrite Hw; simpl. rewrite Hi in Hn, Ht. rewrite Hn, Ht.
    exists []. rewrite !app_nil_r. simpl.
    repeat split; try apply Qle_refl. intros x [].
Qed.

Lemma nondecreasingFrom_app (lo : Q) (a b : list Q) (hi : Q) :
  nondecreasingFrom lo a -> (forall x, In x a -> (x <= hi)%Q) ->
  (lo <= hi)%Q -> nondecreasingFrom hi b ->
  nondecreasingFrom lo (a ++ b).
Proof.
  revert lo. induction a as [|x a IH]; intros lo Ha Hhi Hlo Hb; simpl.
  - apply (nondecreasingFrom_weaken lo hi); assumption.
  - destruct Ha as [H1 H2]. split; [exact H1|].
    apply IH; auto.
    + intros y Hy. apply Hhi. right; exact Hy.
    + apply Hhi. left; reflexivity.
Qed.

(** Along any run without interruption, whatever the events (decoded
    payloads, payloads that the decoder rejects, stops and restarts), the
    start times that the run adds never go back, and none is before the
    cursor the run started from. *)
Lemma scheduled_starts_nondecreasing (mode : ReactMode)
    (decodeAudioData : string -> Completion Q) :
  (forall d q, decodeAudioData d = Normal q -> (0 <= q)%Q) ->
  forall (evs : list Event) (w : World),
    forallb (fun e => negb (isInterruption e)) evs = true ->
    let w' := run mode decodeAudioData evs w in
    exists new,
      scheduledStarts (trace w') = scheduledStarts (trace w) ++ new
      /\ nondecreasingFrom (nextStartTime w) new
      /\ (forall x, In x new -> (x <= nextStartTime w')%Q)
      /\ (nextStartTime w <= nextStartTime w')%Q.
Proof.
  intros Hdur evs. induction evs as [|e evs IH]; intros w H; simpl in *.
  - exists []. rewrite app_nil_r. simpl.
    repeat split; try apply Qle_refl. intros x [].
  - apply andb_true_iff in H. destruct H as [He Hevs].
    apply negb_true_iff in He.
    destruct (step_starts mode decodeAudioData Hdur e w He)
      as (n1 & Ht1 & Hs1 & Hb1 & Hc1).
    destruct (IH (step mode decodeAudioData w e) Hevs)
      as (n2 & Ht2 & Hs2 & Hb2 & Hc2).
    exists (n1 ++ n2). unfold run in *. rewrite Ht2, Ht1, app_assoc.
    split; [reflexivity|]. split; [|split].
    + apply (nondecreasingFrom_app _ _ _
               (nextStartTime (step mode decodeAudioData w e)));
        assumption.
    + intros x Hx. apply in_app_or in Hx. destruct Hx as [Hx|Hx].
      * eapply Qle_trans; [apply Hb1; exact Hx | exact Hc2].
      * apply Hb2; exact Hx.
    + eapply Qle_trans; [exact Hc1 | exact Hc2].
Qed.

(** ** Interruption (C4) *)

Lemma In_Set_add (s x : SourceId) (l : list SourceId) :
  In s l -> In s (Set_add x l).
Proof.
  intro H. unfold Set_add. destruct (existsb (Nat.eqb x) l); [exact H|].
  apply in_or_app; left; exact H.
Qed.

(** C4.  A message with the [interrupted] flag, whose audio payload (if it
    carries one) is decoded, stops every source that was playing, leaves the
    set of sources empty and the cursor at 0.  The next buffer, after any
    quiet events, is then started at [Math_max 0 currentTime], which is not
    before the clock time and is the clock time when that is not negative,
    whatever the cursor was before the interruption. *)
Theorem interruption_resets_playback (mode : ReactMode)
    (decodeAudioData : string -> Completion Q)
    (ct : Q) (ts : Z) (msg : LiveServerMessage) (w : World) :
  interrupted msg = true ->
  (forall d, decodedPayload msg w = Some d ->
             exists q, decodeAudioData d = Normal q) ->
  exists w',
    onmessage mode decodeAudioData ct ts msg w = (Normal tt, w')
    /\ audioSources w' = []
    /\ nextStartTime w' = 0%Q
    /\ (forall s, In s (audioSources w) -> In (SourceStop s) (trace w'))
    /\ (forall (mid : list Event) (ct2 : Q) (ts2 : Z)
               (m2 : LiveServerMessage) (d2 : string) (q2 : Q),
          forallb quietEvent mid = true ->
          decodedPayload m2 w' = Some d2 ->
          decodeAudioData d2 = Normal q2 ->
          let w2 :=
            run mode decodeAudioData (mid ++ [EvMessage ct2 ts2 m2]) w' in
          scheduledStarts (trace w2)
          = scheduledStarts (trace w') ++ [Math_max 0 ct2]
          /\ (ct2 <= Math_max 0 ct2)%Q
          /\ ((0 <= ct2)%Q -> (Math_max 0 ct2 == ct2)%Q)).
Proof.
  intros Hi Hdec.
  assert (Hfirst :
    exists w',
      onmessage mode decodeAudioData ct ts msg w = (Normal tt, w')
      /\ audioSources w' = [] /\ nextStartTime w' = 0%Q
      /\ (forall s, In s (audioSources w) -> In (SourceStop s) (trace w'))).
  { destruct (decodedPayload msg w) as [d|] eqn:Hd.
    - destruct (Hdec d eq_refl) as [q Hq].
      destruct (onmessage_audio mode decodeAudioData ct ts msg w d q Hd Hq)
        as (w' & Hw & _ & Hn & Hs & Ht).
      rewrite Hi in Hn, Hs, Ht.
      exists w'. repeat split; try assumption.
      intros s Hin. rewrite Ht. apply in_or_app; right.
      apply in_or_app; right. apply in_map. apply In_Set_add; exact Hin.
    - destruct (onmessage_no_audio mode decodeAudioData ct ts msg w Hd)
        as (w' & Hw & _ & Hn & Hs & Ht).
      rewrite Hi in Hn, Hs, Ht.
      exists w'. repeat split; try assumption.
      intros s Hin. rewrite Ht. apply in_or_app; right.
      apply in_map; exact Hin. }
  destruct Hfirst as (w' & Hw & Hs & Hn & Hstop).
  exists w'. split; [exact Hw|]. split; [exact Hs|]. split; [exact Hn|].
  split; [exact Hstop|].
  intros mid ct2 ts2 m2 d2 q2 Hmid Hpay Hq2 w2. subst w2. repeat split.
  - rewrite run_snoc.
    destruct (run_quiet mode decodeAudioData mid w' Hmid) as (Hnm & Htm & Hcm).
    set (wm := run mode decodeAudioData mid w') in *.
    destruct (decodedPayload_Some m2 w' d2 Hpay) as (Ha2 & Ht2 & Hc2).
    pose proof (decodedPayload_intro m2 wm d2 Ha2 Ht2 (Hcm Hc2)) as Hp2.
    destruct (onmessage_audio mode decodeAudioData ct2 ts2 m2 wm d2 q2 Hp2 Hq2)
      as (v2 & Hv2 & _ & _ & _ & Htr2).
    change (step mode decodeAudioData wm (EvMessage ct2 ts2 m2))
      with (exec (onmessage mode decodeAudioData ct2 ts2 m2) wm).
    unfold exec. rewrite Hv2. simpl. rewrite Htr2.
    rewrite !scheduledStarts_app, Htm, Hnm, Hn. simpl.
    destruct (interrupted m2); simpl;
      rewrite ?scheduledStarts_map_SourceStop; reflexivity.
  - apply Math_max_ge_r.
  - intro Hpos. unfold Math_max.
    destruct (Qle_bool ct2 0) eqn:E; [|reflexivity].
    apply Qle_bool_iff in E. lra.
Qed.

Lemma interruption_resets_playback_witness :
  exists w',
    onmessage Deferred Sample.decodeAudioData 1 3 Sample.interruptedMsg
      (Sample.playing Deferred) = (Normal tt, w')
    /\ audioSources w' = [] /\ nextStartTime w' = 0%Q.
Proof.
  destruct (interruption_resets_playback Deferred Sample.decodeAudioData
              1 3 Sample.interruptedMsg (Sample.playing Deferred) eq_refl)
    as (w' & Hw & Hs & Hn & _).
  - intros d Hd. vm_compute in Hd. discriminate Hd.
  - exists w'. auto.
Defined.

(** ** [slice] and the bounded log *)

Lemma slice_last_all {A : Type} (n : nat) (l : list A) :
  (List.length l <= n)%nat -> slice_last n l = l.
Proof.
  intro H. unfold slice_last.
  replace (List.length l - n)%nat with 0%nat by lia. reflexivity.
Qed.

Lemma slice_last_length {A : Type} (n : nat) (l : list A) :
  List.length (slice_last n l) = Nat.min n (List.length l).
Proof. unfold slice_last. rewrite length_skipn. lia. Qed.

Lemma slice_last_app_long {A : Type} (n : nat) (p s : list A) :
  (n <= List.length s)%nat -> slice_last n (p ++ s) = slice_last n s.
Proof.
  intro H. unfold slice_last. rewrite length_app, skipn_app.
  replace (List.length p + List.length s - n)%nat
    with (List.length p + (List.length s - n))%nat by lia.
  rewrite skipn_all2 by lia. simpl. f_equal. lia.
Qed.

Lemma slice_last_snoc {A : Type} (n : nat) (l : list A) (x : A) :
  slice_last n l ++ [x] = slice_last (S n) (l ++ [x]).
Proof.
  unfold slice_last. rewrite length_app, skipn_app. simpl.
  replace (List.length l + 1 - S n)%nat with (List.length l - n)%nat by lia.
  replace (List.length l - n - List.length l)%nat with 0%nat by lia.
  reflexivity.
Qed.

Lemma slice_last_absorb {A : Type} (n : nat) (a b : list A) :
  slice_last n (slice_last n a ++ b) = slice_last n (a ++ b).
Proof.
  destruct (Nat.le_gt_cases (List.length a) n) as [H|H].
  - rewrite (slice_last_all n a H). reflexivity.
  - rewrite <- (firstn_skipn (List.length a - n) a) at 2.
    rewrite <- app_assoc. symmetry. apply slice_last_app_long.
    rewrite length_app. unfold slice_last. rewrite length_skipn. lia.
Qed.

(** The log after pushing the items [xs], one [setTranscriptions] each. *)
Lemma push_all {A : Type} (xs l : list A) :
  (List.length l <= 11)%nat ->
  fold_left (fun prev x => slice_last 10 prev ++ [x]) xs l
  = slice_last 11 (l ++ xs).
Proof.
  revert l. induction xs as [|x xs IH]; intros l Hl; simpl.
  - rewrite app_nil_r. symmetry. apply slice_last_all; exact Hl.
  - rewrite IH.
    + rewrite slice_last_snoc, slice_last_absorb, <- app_assoc. reflexivity.
    + rewrite length_app, slice_last_length.
      change (List.length [x]) with 1%nat. lia.
Qed.

(** Two pushes in a row keep the last nine of the log. *)
Lemma push_two {A : Type} (l : list A) (x y : A) :
  slice_last 10 (slice_last 10 l ++ [x]) ++ [y] = slice_last 9 l ++ [x; y].
Proof.
  rewrite <- (slice_last_snoc 9 (slice_last 10 l) x).
  change (slice_last 9 l ++ [x; y]) with (slice_last 9 l ++ [x] ++ [y]).
  rewrite app_assoc. do 2 f_equal.
  unfold slice_last. rewrite length_skipn, skipn_skipn. f_equal. lia.
Qed.

(** ** The transcript part of [onmessage] *)

(** What a handler that completes does to the accumulators and to the
    transcript state: the deltas are appended; at a [turnComplete] the
    updaters of [turnUpdates] are passed to [setTranscriptions] (queued, or
    run at once on the accumulated text) and both accumulators are emptied. *)
Lemma onmessage_transcript (mode : ReactMode)
    (decodeAudioData : string -> Completion Q) (currentTime : Q) (dateNow : Z)
    (msg : LiveServerMessage) (w w' : World) :
  onmessage mode decodeAudioData currentTime dateNow msg w = (Normal tt, w') ->
  currentInputTranscription w'
  = (if turnComplete msg then "" else inputAfter msg w)
  /\ currentOutputTranscription w'
     = (if turnComplete msg then "" else outputAfter msg w)
  /\ session w' = session w /\ pendingSession w' = pendingSession w
  /\ match mode with
     | Deferred =>
         transcriptions w' = transcriptions w
         /\ pendingTranscriptions w'
            = pendingTranscriptions w ++ turnUpdates msg w
     | Immediate =>
         pendingTranscriptions w' = pendingTranscriptions w
         /\ transcriptions w'
            = applyTranscriptUpdates (turnUpdates msg w) (inputAfter msg w)
                (outputAfter msg w) dateNow (transcriptions w)
     end.
Proof.
  destruct msg as [au it inp outp tcm].
  destruct w as [se tr ps pt ic oc nst srcs nid scr mc fi ci co tc].
  unfold turnUpdates, inputAfter, outputAfter, applyTranscriptUpdates.
  unfold_handler; simpl.
  destruct au as [b|];
    [destruct (truthy b), oc; simpl;
     [destruct (decodeAudioData b); simpl|..]|];
    destruct it, inp, outp, tcm, mode; simpl;
    rewrite ?fold_log; simpl; split_truthy; simpl;
    intro H; inversion H; subst; simpl;
    rewrite <- ?app_assoc, ?app_nil_r; repeat split; reflexivity.
Qed.

Lemma onmessage_completes (mode : ReactMode)
    (decodeAudioData : string -> Completion Q) (currentTime : Q) (dateNow : Z)
    (msg : LiveServerMessage) (w : World) :
  (forall d, decodedPayload msg w = Some d ->
             exists q, decodeAudioData d = Normal q) ->
  exists w',
    onmessage mode decodeAudioData currentTime dateNow msg w = (Normal tt, w').
Proof.
  intro Hdec. destruct (decodedPayload msg w) as [d|] eqn:Hd.
  - destruct (Hdec d eq_refl) as [q Hq].
    destruct (onmessage_audio mode decodeAudioData currentTime dateNow msg w
                d q Hd Hq) as (w' & Hw & _).
    exists w'; exact Hw.
  - destruct (onmessage_no_audio mode decodeAudioData currentTime dateNow msg
                w Hd) as (w' & Hw & _).
    exists w'; exact Hw.
Qed.

Lemma transcriptions_render (dateNow : Z) (w : World) :
  transcriptions (render dateNow w)
  = applyTranscriptUpdates (pendingTranscriptions w)
      (currentInputTranscription w) (currentOutputTranscription w) dateNow
      (transcriptions w).
Proof. reflexivity. Qed.

(** ** A turn with both speakers (C10) *)

(** C10.  At a [turnComplete] at which both accumulators are non-empty
    (the handler completing, and no transcript update pending before), two
    items are appended, the user's and then the model's, and nothing else:
    the log is the last nine entries of the old log followed by the two, so
    that at most two of the oldest entries of a log within its bound are
    dropped, and exactly two when it was full. *)
Theorem turn_with_both_speakers (mode : ReactMode)
    (decodeAudioData : string -> Completion Q) (currentTime : Q)
    (dateNow renderTime : Z) (msg : LiveServerMessage) (w : World) :
  turnComplete msg = true ->
  truthy (inputAfter msg w) = true ->
  truthy (outputAfter msg w) = true ->
  (forall d, decodedPayload msg w = Some d ->
             exists q, decodeAudioData d = Normal q) ->
  pendingTranscriptions w = [] ->
  exists (w' : World) (u m : TranscriptionItem),
    onmessage mode decodeAudioData currentTime dateNow msg w = (Normal tt, w')
    /\ type u = User /\ type m = Model
    /\ transcriptions (render renderTime w')
       = slice_last 9 (transcriptions w) ++ [u; m]
    /\ ((List.length (transcriptions w) <= 11)%nat ->
        exists k, (k <= 2)%nat
                  /\ transcriptions (render renderTime w')
                     = skipn k (transcriptions w) ++ [u; m])
    /\ (List.length (transcriptions w) = 11%nat ->
        transcriptions (render renderTime w')
        = skipn 2 (transcriptions w) ++ [u; m]).
Proof.
  intros Htc Hin Hout Hdec Hp.
  destruct (onmessage_completes mode decodeAudioData currentTime dateNow msg w
              Hdec) as [w' Hw].
  destruct (onmessage_transcript mode decodeAudioData currentTime dateNow msg
              w w' Hw) as (Hci & Hco & _ & _ & Hmode).
  unfold turnUpdates in Hmode. rewrite Htc, Hin, Hout in Hmode.
  rewrite Htc in Hci, Hco.
  assert (Hlog : exists u m,
             type u = User /\ type m = Model
             /\ transcriptions (render renderTime w')
                = slice_last 9 (transcriptions w) ++ [u; m]).
  { rewrite transcriptions_render. destruct mode.
    - destruct Hmode as [Ht Hq]. rewrite Hq, Ht, Hp, Hci, Hco. simpl.
      eexists; eexists. split; [|split]; [| |apply push_two]; reflexivity.
    - destruct Hmode as [Hq Ht]. rewrite Hq, Ht, Hp. simpl.
      eexists; eexists. split; [|split]; [| |apply push_two]; reflexivity. }
  destruct Hlog as (u & m & Hu & Hm & Hlog).
  exists w', u, m. split; [exact Hw|]. split; [exact Hu|]. split; [exact Hm|].
  split; [exact Hlog|]. split.
  - intro Hlen. exists (List.length (transcriptions w) - 9)%nat.
    split; [lia | exact Hlog].
  - intro Hlen. rewrite Hlog. unfold slice_last. rewrite Hlen. reflexivity.
Qed.

Lemma turn_with_both_speakers_witness :
  exists (w' : World) (u m : TranscriptionItem),
    onmessage Deferred Sample.decodeAudioData 0 4 turnCompleteMessage
      (Scenario.bothSpoke Deferred) = (Normal tt, w')
    /\ type u = User /\ type m = Model
    /\ transcriptions (render 5 w') = [u; m].
Proof.
  destruct (turn_with_both_speakers Deferred Sample.decodeAudioData 0 4 5
              turnCompleteMessage (Scenario.bothSpoke Deferred)
              eq_refl eq_refl eq_refl)
    as (w' & u & m & Hw & Hu & Hm & Hlog & _).
  - intros d Hd. vm_compute in Hd. discriminate Hd.
  - reflexivity.
  - exists w', u, m. repeat split; assumption.
Defined.

(** ** The text of a committed turn (C5) *)

(** In [Deferred] mode an updater queued at a [turnComplete] runs at the
    render, after the handler has emptied the accumulators: the item it
    appends has the empty text. *)
Lemma deferred_turn_text_is_empty
    (decodeAudioData : string -> Completion Q) (currentTime : Q)
    (dateNow renderTime : Z) (msg : LiveServerMessage) (w w' : World) :
  turnComplete msg = true ->
  pendingTranscriptions w = [] ->
  onmessage Deferred decodeAudioData currentTime dateNow msg w
  = (Normal tt, w') ->
  forall item, In item (transcriptions (render renderTime w')) ->
               In item (transcriptions w) \/ text item = "".
Proof.
  intros Htc Hp Hw item.
  destruct (onmessage_transcript Deferred decodeAudioData currentTime dateNow
              msg w w' Hw) as (Hci & Hco & _ & _ & Ht & Hq).
  rewrite transcriptions_render, Hq, Ht, Hp, Hci, Hco, Htc.
  unfold turnUpdates. rewrite Htc. simpl.
  assert (Hsl : forall (n : nat) (x : TranscriptionItem)
                       (l : list TranscriptionItem),
             In x (slice_last n l) -> In x l).
  { intros n x l Hx. unfold slice_last in Hx.
    rewrite <- (firstn_skipn (List.length l - n) l).
    apply in_or_app; right; exact Hx. }
  destruct (truthy (inputAfter msg w)), (truthy (outputAfter msg w));
    simpl; intro Hin;
    repeat match goal with
           | H : In _ (_ ++ _) |- _ => apply in_app_or in H; destruct H as [H|H]
           | H : In _ (slice_last _ _) |- _ => apply Hsl in H
           | H : In _ [_] |- _ => destruct H as [H|[]]; subst
           end; auto.
Qed.

(** When the updater runs inside the setter call, the text is the
    accumulated one. *)
Lemma immediate_turn_text_is_accumulated
    (decodeAudioData : string -> Completion Q) (currentTime : Q)
    (dateNow : Z) (msg : LiveServerMessage) (w w' : World) :
  turnComplete msg = true ->
  onmessage Immediate decodeAudioData currentTime dateNow msg w
  = (Normal tt, w') ->
  transcriptions w'
  = applyTranscriptUpdates (turnUpdates msg w) (inputAfter msg w)
      (outputAfter msg w) dateNow (transcriptions w)
  /\ currentInputTranscription w' = ""
  /\ currentOutputTranscription w' = "".
Proof.
  intros Htc Hw.
  destruct (onmessage_transcript Immediate decodeAudioData currentTime dateNow
              msg w w' Hw) as (Hci & Hco & _ & _ & _ & Ht).
  rewrite Htc in Hci, Hco. auto.
Qed.

(** C5.  The scenario [inputTranscriptDelta("hel")],
    [inputTranscriptDelta("lo")], [turnComplete] on a connected session.  One
    item is appended, for the user, and both accumulators are emptied; but
    the updater reads [currentInputTranscription] when React runs it.  Run at
    the next render it finds the variable already emptied and the item's text
    is empty, not ["hello"]; it is ["hello"] only when the updater is run
    inside the setter call. *)
Theorem hello_scenario :
  let deferred :=
    run Deferred Sample.decodeAudioData Scenario.hello
      (Sample.connected Deferred) in
  let immediate :=
    run Immediate Sample.decodeAudioData Scenario.hello
      (Sample.connected Immediate) in
  transcriptions deferred = [mkTranscriptionItem User "" 4]
  /\ transcriptions deferred <> [mkTranscriptionItem User "hello" 4]
  /\ currentInputTranscription deferred = ""
  /\ currentOutputTranscription deferred = ""
  /\ transcriptions immediate = [mkTranscriptionItem User "hello" 3].
Proof.
  repeat split; try reflexivity. vm_compute. discriminate.
Qed.

(** ** The bounded log (C6) *)

Lemma step_delta (mode : ReactMode)
    (decodeAudioData : string -> Completion Q) (ct : Q) (ts : Z) (r : Role)
    (d : string) (w : World) :
  let w' := step mode decodeAudioData w (EvMessage ct ts (deltaMessage r d)) in
  transcriptions w' = transcriptions w
  /\ pendingTranscriptions w' = pendingTranscriptions w
  /\ currentInputTranscription w'
     = match r with
       | User => (currentInputTranscription w ++ d)%string
       | Model => currentInputTranscription w
       end
  /\ currentOutputTranscription w'
     = match r with
       | User => currentOutputTranscription w
       | Model => (currentOutputTranscription w ++ d)%string
       end.
Proof.
  intro w'. subst w'. simpl. unfold exec.
  assert (Hd : decodedPayload (deltaMessage r d) w = None)
    by (destruct r; reflexivity).
  destruct (onmessage_no_audio mode decodeAudioData ct ts (deltaMessage r d) w
              Hd) as (w' & Hw & _).
  destruct (onmessage_transcript mode decodeAudioData ct ts (deltaMessage r d)
              w w' Hw) as (Hci & Hco & _ & _ & Hmode).
  rewrite Hw; simpl.
  assert (Htc : turnComplete (deltaMessage r d) = false)
    by (destruct r; reflexivity).
  unfold turnUpdates in Hmode. rewrite Htc in Hci, Hco, Hmode.
  assert (Hlog : transcriptions w' = transcriptions w
                 /\ pendingTranscriptions w' = pendingTranscriptions w).
  { destruct mode; destruct Hmode as [H1 H2].
    - rewrite app_nil_r in H2. auto.
    - auto. }
  destruct Hlog as [H1 H2].
  rewrite H1, H2, Hci, Hco. destruct r; repeat split; reflexivity.
Qed.

Lemma run_deltas (mode : ReactMode)
    (decodeAudioData : string -> Completion Q) (ct : Q) (ts : Z) (r : Role)
    (ds : list string) (w : World) :
  let w' :=
    run mode decodeAudioData
      (map (fun d => EvMessage ct ts (deltaMessage r d)) ds) w in
  transcriptions w' = transcriptions w
  /\ pendingTranscriptions w' = pendingTranscriptions w
  /\ currentInputTranscription w'
     = match r with
       | User => accumulate (currentInputTranscription w) ds
       | Model => currentInputTranscription w
       end
  /\ currentOutputTranscription w'
     = match r with
       | User => currentOutputTranscription w
       | Model => accumulate (currentOutputTranscription w) ds
       end.
Proof.
  revert w. induction ds as [|d ds IH]; intro w; simpl.
  - destruct r; repeat split; reflexivity.
  - destruct (step_delta mode decodeAudioData ct ts r d w)
      as (H1 & H2 & H3 & H4).
    destruct (IH (step mode decodeAudioData w
                    (EvMessage ct ts (deltaMessage r d))))
      as (I1 & I2 & I3 & I4).
    unfold run in *. simpl in *.
    rewrite I1, I2, I3, I4, H1, H2, H3, H4.
    destruct r; repeat split; reflexivity.
Qed.

(** The end of a turn in which only [r] has spoken, and the render after
    it. *)
Lemma run_turnComplete (mode : ReactMode)
    (decodeAudioData : string -> Completion Q) (ct : Q) (ts : Z) (r : Role)
    (acc : string) (w : World) :
  pendingTranscriptions w = [] ->
  truthy acc = true ->
  currentInputTranscription w = match r with User => acc | Model => "" end ->
  currentOutputTranscription w = match r with User => "" | Model => acc end ->
  let w' :=
    run mode decodeAudioData
      [EvMessage ct ts turnCompleteMessage; EvRender ts] w in
  betweenTurns w'
  /\ transcriptions w'
     = slice_last 10 (transcriptions w)
       ++ [mkTranscriptionItem r
             (match mode with Immediate => acc | Deferred => "" end) ts].
Proof.
  intros Hp Hacc Hci Hco w'. subst w'. unfold run; simpl. unfold exec.
  assert (Hd : decodedPayload turnCompleteMessage w = None) by reflexivity.
  destruct (onmessage_no_audio mode decodeAudioData ct ts turnCompleteMessage
              w Hd) as (w' & Hw & _).
  destruct (onmessage_transcript mode decodeAudioData ct ts
              turnCompleteMessage w w' Hw) as (Hci' & Hco' & _ & _ & Hmode).
  rewrite Hw; simpl. simpl in Hci', Hco'.
  unfold turnUpdates, inputAfter, outputAfter in Hmode. simpl in Hmode.
  rewrite Hci, Hco in Hmode.
  unfold betweenTurns. simpl. rewrite Hci', Hco'.
  split; [repeat split; reflexivity|].
  destruct mode; destruct Hmode as [H1 H2]; rewrite H1, H2, ?Hp;
    destruct r; simpl; rewrite Hacc; reflexivity.
Qed.

Lemma run_app (mode : ReactMode) (decodeAudioData : string -> Completion Q)
    (a b : list Event) (w : World) :
  run mode decodeAudioData (a ++ b) w
  = run mode decodeAudioData b (run mode decodeAudioData a w).
Proof. unfold run. apply fold_left_app. Qed.

Lemma run_turn (mode : ReactMode) (decodeAudioData : string -> Completion Q)
    (t : Turn) (w : World) :
  betweenTurns w -> truthy (turnText t) = true ->
  let w' := run mode decodeAudioData (turnEvents t) w in
  betweenTurns w'
  /\ transcriptions w' = slice_last 10 (transcriptions w) ++ [turnItem mode t].
Proof.
  intros (Hci & Hco & Hp) Htxt w'. subst w'.
  unfold turnEvents. rewrite run_app.
  destruct (run_deltas mode decodeAudioData 0 (turnTime t) (speaker t)
              (deltas t) w) as (H1 & H2 & H3 & H4).
  set (w1 := run mode decodeAudioData
               (map (fun d => EvMessage 0 (turnTime t)
                                (deltaMessage (speaker t) d)) (deltas t)) w)
    in *.
  rewrite Hci in H3. rewrite Hco in H4. rewrite Hp in H2.
  destruct (run_turnComplete mode decodeAudioData 0 (turnTime t) (speaker t)
              (turnText t) w1 H2 Htxt) as (Hb & Ht).
  - rewrite H3. destruct (speaker t); reflexivity.
  - rewrite H4. destruct (speaker t); reflexivity.
  - split; [exact Hb|]. rewrite Ht, H1. reflexivity.
Qed.

Lemma run_turns (mode : ReactMode) (decodeAudioData : string -> Completion Q)
    (turns : list Turn) (w : World) :
  betweenTurns w ->
  (forall t, In t turns -> truthy (turnText t) = true) ->
  let w' := run mode decodeAudioData (flat_map turnEvents turns) w in
  betweenTurns w'
  /\ transcriptions w'
     = fold_left (fun prev x => slice_last 10 prev ++ [x])
         (map (turnItem mode) turns) (transcriptions w).
Proof.
  revert w. induction turns as [|t turns IH]; intros w Hb Htxt; simpl.
  - split; [exact Hb | reflexivity].
  - rewrite run_app.
    destruct (run_turn mode decodeAudioData t w Hb (Htxt t (or_introl eq_refl)))
      as (Hb1 & Ht1).
    destruct (IH (run mode decodeAudioData (turnEvents t) w) Hb1
                (fun t' H => Htxt t' (or_intror H))) as (Hb2 & Ht2).
    split; [exact Hb2|]. rewrite Ht2, Ht1. reflexivity.
Qed.

(** C6.  After [N] turns, each with one speaker whose accumulated text is
    not empty (so that each [turnComplete] appends one item), from an empty
    log, the log is the last 11 of the [N] items in order: its length is
    [min N 11], nothing is dropped while [N <= 11], and beyond that the
    [N - 11] oldest items are the ones dropped. *)
Theorem bounded_log (mode : ReactMode)
    (decodeAudioData : string -> Completion Q) (turns : list Turn)
    (w : World) :
  transcriptions w = [] -> betweenTurns w ->
  (forall t, In t turns -> truthy (turnText t) = true) ->
  let w' := run mode decodeAudioData (flat_map turnEvents turns) w in
  let items := map (turnItem mode) turns in
  transcriptions w' = slice_last 11 items
  /\ List.length (transcriptions w') = Nat.min (List.length turns) 11
  /\ ((List.length turns <= 11)%nat -> transcriptions w' = items)
  /\ transcriptions w' = skipn (List.length turns - 11) items.
Proof.
  intros Hlog Hb Htxt w' items.
  destruct (run_turns mode decodeAudioData turns w Hb Htxt) as (_ & Ht).
  fold w' in Ht. rewrite Hlog in Ht.
  rewrite push_all in Ht by (simpl; lia). simpl in Ht. fold items in Ht.
  assert (Hlen : List.length items = List.length turns)
    by (unfold items; apply length_map).
  split; [exact Ht|]. split; [|split].
  - rewrite Ht, slice_last_length, Hlen. apply Nat.min_comm.
  - intro Hle. rewrite Ht. apply slice_last_all. rewrite Hlen. exact Hle.
  - rewrite Ht. unfold slice_last. rewrite Hlen. reflexivity.
Qed.

Lemma bounded_log_witness :
  let w' :=
    run Immediate Sample.decodeAudioData
      (flat_map turnEvents Scenario.twelveTurns)
      (Sample.connected Immediate) in
  List.length (transcriptions w') = 11%nat
  /\ transcriptions w'
     = skipn 1 (map (turnItem Immediate) Scenario.twelveTurns).
Proof.
  assert (Hb : betweenTurns (Sample.connected Immediate))
    by (unfold betweenTurns; repeat split; reflexivity).
  assert (Htxt : forall t, In t Scenario.twelveTurns ->
                           truthy (turnText t) = true).
  { intros t Hin. simpl in Hin.
    repeat (destruct Hin as [<-|Hin]; [reflexivity|]). contradiction. }
  destruct (bounded_log Immediate Sample.decodeAudioData Scenario.twelveTurns
              (Sample.connected Immediate) eq_refl Hb Htxt)
    as (_ & Hlen & _ & Hskip).
  split; [exact Hlen | exact Hskip].
Defined.

(** * Further properties *)

(** ** Computations that keep a property *)

Section Preserves.

Context {A B : Type} (P : World -> Prop).

Lemma preserves_ret (a : A) : preserves P (ret a).
Proof. intros w H; exact H. Qed.

Lemma preserves_throw (e : JsError) : preserves P (@throw A e).
Proof. intros w H; exact H. Qed.

Lemma preserves_settle (c : Completion A) : preserves P (settle c).
Proof. intros w H; exact H. Qed.

Lemma preserves_gets (f : World -> A) : preserves P (gets f).
Proof. intros w H; exact H. Qed.

Lemma preserves_bind (m : M A) (k : A -> M B) :
  preserves P m -> (forall a, preserves P (k a)) -> preserves P (bind m k).
Proof.
  intros Hm Hk w H. unfold bind. specialize (Hm w H).
  destruct (m w) as [[a|e] w1]; simpl in *; [apply Hk; exact Hm | exact Hm].
Qed.

Lemma preserves_tryCatch (m : M A) (h : JsError -> M A) :
  preserves P m -> (forall e, preserves P (h e)) ->
  preserves P (tryCatch m h).
Proof.
  intros Hm Hh w H. unfold tryCatch. specialize (Hm w H).
  destruct (m w) as [[a|e] w1]; simpl in *; [exact Hm | apply Hh; exact Hm].
Qed.

End Preserves.

Lemma preserves_modify (P : World -> Prop) (f : World -> World) :
  (forall w, P w -> P (f w)) -> preserves P (modify f).
Proof. intros Hf w H. apply Hf; exact H. Qed.

Lemma preserves_when (P : World -> Prop) (b : bool) (m : M unit) :
  preserves P m -> preserves P (when b m).
Proof. intro Hm. destruct b; [exact Hm | apply preserves_ret]. Qed.

(** Splits a handler into its assignments. *)
Ltac preserves_steps :=
  repeat first
    [ apply preserves_bind; [|intro]
    | apply preserves_tryCatch; [|intro]
    | apply preserves_when
    | apply preserves_ret
    | apply preserves_throw
    | apply preserves_settle
    | apply preserves_gets
    | match goal with
      | |- preserves _ (match ?x with _ => _ end) => destruct x
      end
    | apply preserves_modify; intros ? ? ].

(** An invariant kept by the assignments of the handlers is kept by every
    event. *)
Lemma step_keeps (mode : ReactMode)
    (decodeAudioData : string -> Completion Q) (P : World -> Prop) :
  (forall u w, updateOk u -> P w -> P (setSession mode u w)) ->
  (forall ts u w, P w -> P (setTranscriptions mode ts u w)) ->
  (forall ts w, P w -> P (render ts w)) ->
  (forall w, P w -> P (stopAllStreams w)) ->
  (forall w, P w -> P (set_inputAudioCtx true w)) ->
  (forall w, P w -> P (set_outputAudioCtx true w)) ->
  (forall s w, P w -> P (set_micStream (Some s) w)) ->
  (forall s w, P w -> P (set_screenStream (Some s) w)) ->
  (forall id w, P w -> P (set_frameInterval (Some id) w)) ->
  (forall t w, P w -> P (set_currentInputTranscription t w)) ->
  (forall t w, P w -> P (set_currentOutputTranscription t w)) ->
  (forall ct w, P w ->
     P (set_nextStartTime (Math_max (nextStartTime w) ct) w)) ->
  (forall d q w, decodeAudioData d = Normal q -> P w ->
     P (set_audioSources (Set_add (nextSourceId w) (audioSources w))
          (set_nextStartTime (nextStartTime w + q)%Q
             (log (SourceStart (nextSourceId w) (nextStartTime w))
                (set_nextSourceId (S (nextSourceId w)) w))))) ->
  (forall w, P w ->
     P (set_nextStartTime 0%Q (set_audioSources [] (stopSources w)))) ->
  (forall s w, P w -> P (source_onended s w)) ->
  forall (e : Event) (w : World),
    P w -> P (step mode decodeAudioData w e).
Proof.
  intros Hss Hst Hr Hstop Hic Hoc Hmic Hscr Hfi Hci Hco Hmax Hsched Hint Hend
         e w HP.
  assert (Hstopsess : forall v, P v -> P (handleStopSession mode v)).
  { intros v Hv. unfold handleStopSession. apply Hss; [exact I|].
    apply Hstop; exact Hv. }
  destruct e as [env| |id|ct ts msg| | | |s|ts]; simpl.
  - unfold startLiveSession, exec.
    assert (H : preserves P
                  (tryCatch (startLiveSession_try mode env)
                     (fun err =>
                        bind
                          (modify
                             (setSession mode
                                (ToError
                                   (orElse (message err) fallbackMessage))))
                          (fun _ => modify stopAllStreams)))).
    { unfold startLiveSession_try. preserves_steps; auto.
      all: apply Hss;
        [first [exact I | simpl; apply orElse_truthy; reflexivity]
        | assumption]. }
    apply H; exact HP.
  - apply Hstopsess; exact HP.
  - unfold onopen. apply Hfi. apply Hss; [exact I | exact HP].
  - unfold exec.
    assert (H : preserves P (onmessage mode decodeAudioData ct ts msg)).
    { unfold onmessage.
      apply preserves_bind; [|intro; apply preserves_bind; [|intro]].
      - destruct (modelTurnAudio msg) as [b|]; [|apply preserves_ret].
        apply preserves_bind; [apply preserves_gets | intro have].
        apply preserves_when. intros v Hv.
        unfold bind, modify, gets, settle; simpl.
        destruct (decodeAudioData b) as [q|err] eqn:Hq; simpl.
        + exact (Hsched b q _ Hq (Hmax ct v Hv)).
        + apply Hmax; exact Hv.
      - apply preserves_when. intros v Hv. unfold bind, modify; simpl.
        apply Hint; exact Hv.
      - preserves_steps; auto. }
    apply H; exact HP.
  - unfold onerror. apply Hstopsess. apply Hss; [|exact HP]. reflexivity.
  - apply Hstopsess; exact HP.
  - apply Hstopsess; exact HP.
  - apply Hend; exact HP.
  - apply Hr; exact HP.
Qed.

Lemma run_keeps (mode : ReactMode)
    (decodeAudioData : string -> Completion Q) (P : World -> Prop) :
  (forall e w, P w -> P (step mode decodeAudioData w e)) ->
  forall (evs : list Event) (w : World),
    P w -> P (run mode decodeAudioData evs w).
Proof.
  intros Hstep evs. induction evs as [|e evs IH]; intros w HP; simpl.
  - exact HP.
  - apply IH. apply Hstep. exact HP.
Qed.

(** ** The log never exceeds its bound *)

Lemma push_bounded {A : Type} (l : list A) (x : A) :
  (List.length (slice_last 10 l ++ [x]) <= 11)%nat.
Proof.
  rewrite length_app, slice_last_length.
  change (List.length [x]) with 1%nat. lia.
Qed.

Lemma applyTranscriptUpdate_bounded (u : TranscriptUpdate) (ci co : string)
    (ts : Z) (l : list TranscriptionItem) :
  (List.length (applyTranscriptUpdate u ci co ts l) <= 11)%nat.
Proof. destruct u; apply push_bounded. Qed.

Lemma applyTranscriptUpdates_bounded (us : list TranscriptUpdate)
    (ci co : string) (ts : Z) (l : list TranscriptionItem) :
  (List.length l <= 11)%nat ->
  (List.length (applyTranscriptUpdates us ci co ts l) <= 11)%nat.
Proof.
  revert l. induction us as [|u us IH]; intros l Hl; simpl; [exact Hl|].
  apply IH. apply applyTranscriptUpdate_bounded.
Qed.

Lemma step_logBounded (mode : ReactMode)
    (decodeAudioData : string -> Completion Q) (e : Event) (w : World) :
  logBounded w -> logBounded (step mode decodeAudioData w e).
Proof.
  apply step_keeps; unfold logBounded;
    try solve [intros; simpl; assumption].
  - intros u v _ Hv. unfold setSession. destruct mode; exact Hv.
  - intros ts u v Hv. unfold setTranscriptions. destruct mode; simpl;
      [exact Hv | apply applyTranscriptUpdate_bounded].
  - intros ts v Hv. rewrite transcriptions_render.
    apply applyTranscriptUpdates_bounded; exact Hv.
  - intros v Hv. rewrite stopAllStreams_eq. exact Hv.
  - intros v Hv. rewrite stopSources_logs. exact Hv.
Qed.

(** X2.  Whatever the events and their order, and however React runs the
    updaters, the transcript log of a run from the initial state never holds
    more than 11 items. *)
Theorem log_never_exceeds_bound (mode : ReactMode)
    (decodeAudioData : string -> Completion Q) (evs : list Event) :
  (List.length (transcriptions (run mode decodeAudioData evs initialWorld))
   <= 11)%nat.
Proof.
  apply (run_keeps mode decodeAudioData logBounded).
  - intros e w. apply step_logBounded.
  - unfold logBounded; simpl. lia.
Qed.

(** ** The session state along a run *)

Lemma sessionOk_apply (u : SessionUpdate) (s : SessionState) :
  updateOk u -> sessionOk s -> sessionOk (applySessionUpdate u s).
Proof.
  intros Hu (H1 & H2 & H3 & H4 & H5 & H6 & H7).
  destruct u; simpl in *; unfold sessionOk; simpl;
    repeat split; try assumption; try discriminate; try reflexivity;
    try (intros msg' Hm; discriminate Hm).
  intros msg' Hm. injection Hm as <-. exact Hu.
Qed.

Lemma sessionOk_fold (us : list SessionUpdate) (s : SessionState) :
  Forall updateOk us -> sessionOk s ->
  sessionOk (fold_left (fun prev u => applySessionUpdate u prev) us s).
Proof.
  revert s. induction us as [|u us IH]; intros s Hus Hs; simpl; [exact Hs|].
  inversion Hus; subst. apply IH; [assumption|].
  apply sessionOk_apply; assumption.
Qed.

Lemma step_sessionInv (mode : ReactMode)
    (decodeAudioData : string -> Completion Q) (e : Event) (w : World) :
  sessionInv w -> sessionInv (step mode decodeAudioData w e).
Proof.
  apply step_keeps; unfold sessionInv;
    try solve [intros; simpl; assumption].
  - intros u v Hu [Hs Hp]. unfold setSession. destruct mode; simpl.
    + split; [exact Hs|]. apply Forall_app. split; [exact Hp|].
      constructor; [exact Hu | constructor].
    + split; [apply sessionOk_apply; assumption | exact Hp].
  - intros ts u v Hv. unfold setTranscriptions. destruct mode; exact Hv.
  - intros ts v [Hs Hp]. simpl. split; [|constructor].
    apply sessionOk_fold; assumption.
  - intros v Hv. rewrite stopAllStreams_eq. exact Hv.
  - intros v Hv. rewrite stopSources_logs. exact Hv.
Qed.

(** X1.  Along every run from the initial state, the session state held by
    React, and the one the next render will show, satisfy: [isActive] and
    [isScreenSharing] are equal; [isMuted] is false; an idle session is not
    active and a connected one is; a session in error carries a message and a
    connecting one carries none; and a message is never the empty string. *)
Theorem session_state_invariant (mode : ReactMode)
    (decodeAudioData : string -> Completion Q) (evs : list Event) :
  let w := run mode decodeAudioData evs initialWorld in
  sessionOk (session w) /\ sessionOk (renderedSession w).
Proof.
  intro w.
  assert (H : sessionInv w).
  { apply (run_keeps mode decodeAudioData sessionInv).
    - intros e v. apply step_sessionInv.
    - split; [|constructor]. unfold sessionOk; simpl.
      repeat split; try reflexivity; try discriminate. }
  destruct H as [Hs Hp]. split; [exact Hs|].
  apply sessionOk_fold; assumption.
Qed.

(** ** The discipline of the source nodes *)

Lemma startedSources_app (a b : list Op) :
  startedSources (a ++ b) = startedSources a ++ startedSources b.
Proof.
  induction a as [|o a IH]; simpl; [reflexivity|].
  destruct o; simpl; rewrite IH; reflexivity.
Qed.

Lemma startedSources_teardownOps (w : World) :
  startedSources (teardownOps w) = [].
Proof.
  unfold teardownOps. rewrite !startedSources_app.
  assert (Ht : forall l, startedSources (map TrackStop l) = [])
    by (induction l; simpl; auto).
  assert (Hs : forall l, startedSources (map SourceStop l) = [])
    by (induction l; simpl; auto).
  rewrite !Ht, Hs. destruct (frameInterval w); reflexivity.
Qed.

Lemma stopsFollowStarts_mono (os : list Op) (st st' : list SourceId) :
  (forall s, In s st -> In s st') ->
  stopsFollowStarts st os -> stopsFollowStarts st' os.
Proof.
  revert st st'. induction os as [|o os IH]; intros st st' Hsub H; simpl;
    [exact I|].
  destruct o; simpl in *.
  - eapply IH; eassumption.
  - eapply IH; eassumption.
  - eapply IH; [|exact H]. intros x [->|Hx]; [left; reflexivity|].
    right; apply Hsub; exact Hx.
  - destruct H as [H1 H2]. split; [apply Hsub; exact H1|].
    eapply IH; eassumption.
Qed.

Lemma stopsFollowStarts_app (a b : list Op) (st : list SourceId) :
  stopsFollowStarts st a ->
  stopsFollowStarts (startedSources a ++ st) b ->
  stopsFollowStarts st (a ++ b).
Proof.
  revert st. induction a as [|o a IH]; intros st Ha Hb; simpl in *;
    [exact Hb|].
  destruct o; simpl in *.
  - apply IH; assumption.
  - apply IH; assumption.
  - apply IH; [exact Ha|].
    eapply stopsFollowStarts_mono; [|exact Hb].
    intros x [->|Hx]; apply in_or_app; [right; left; reflexivity|].
    apply in_app_or in Hx. destruct Hx as [Hx|Hx]; [left; exact Hx|].
    right; right; exact Hx.
  - destruct Ha as [H1 H2]. split; [exact H1|]. apply IH; assumption.
Qed.

Lemma stopsFollowStarts_teardownOps (w : World) (st : list SourceId) :
  (forall s, In s (audioSources w) -> In s st) ->
  stopsFollowStarts st (teardownOps w).
Proof.
  intro Hsub. unfold teardownOps.
  assert (Ht : forall l st', stopsFollowStarts st' (map TrackStop l))
    by (induction l; intro; simpl; auto).
  assert (Hs : forall l, (forall s, In s l -> In s st) ->
                         stopsFollowStarts st (map SourceStop l)).
  { induction l as [|x l IH]; intro Hl; simpl; [exact I|].
    split; [apply Hl; left; reflexivity|]. apply IH.
    intros s Hin. apply Hl. right; exact Hin. }
  assert (Hnil : forall l, startedSources (map TrackStop l) = [])
    by (induction l; simpl; auto).
  apply stopsFollowStarts_app; [apply Ht|]. rewrite Hnil; simpl.
  apply stopsFollowStarts_app; [apply Ht|]. rewrite Hnil; simpl.
  destruct (frameInterval w); simpl; apply Hs; exact Hsub.
Qed.

Lemma In_Set_add_inv (s x : SourceId) (l : list SourceId) :
  In s (Set_add x l) -> s = x \/ In s l.
Proof.
  unfold Set_add. destruct (existsb (Nat.eqb x) l); [auto|].
  intro H. apply in_app_or in H. destruct H as [H|[H|[]]]; auto.
Qed.

Lemma NoDup_Set_add (x : SourceId) (l : list SourceId) :
  NoDup l -> NoDup (Set_add x l).
Proof.
  intro H. unfold Set_add. destruct (existsb (Nat.eqb x) l) eqn:E; [exact H|].
  assert (Hx : ~ In x l).
  { intro Hin.
    assert (existsb (Nat.eqb x) l = true)
      by (apply existsb_exists; exists x; split;
          [exact Hin | apply Nat.eqb_refl]).
    congruence. }
  clear E. induction l as [|y l IH]; simpl.
  - constructor; [intros []|constructor].
  - inversion H; subst. constructor.
    + intro Hin. apply in_app_or in Hin. destruct Hin as [Hin|[<-|[]]].
      * contradiction.
      * apply Hx. left; reflexivity.
    + apply IH; [assumption|]. intro Hin. apply Hx. right; exact Hin.
Qed.

Lemma step_sourcesInv (mode : ReactMode)
    (decodeAudioData : string -> Completion Q) (e : Event) (w : World) :
  sourcesInv w -> sourcesInv (step mode decodeAudioData w e).
Proof.
  apply step_keeps; unfold sourcesInv;
    try solve [intros; simpl; assumption].
  - intros u v _ Hv. unfold setSession. destruct mode; exact Hv.
  - intros ts u v Hv. unfold setTranscriptions. destruct mode; exact Hv.
  - intros v (H1 & H2 & H3 & H4 & H5). rewrite stopAllStreams_eq; simpl.
    rewrite startedSources_app, startedSources_teardownOps, app_nil_r.
    repeat split; try assumption.
    + intros s [].
    + constructor.
    + apply stopsFollowStarts_app; [exact H5|].
      apply stopsFollowStarts_teardownOps. intros s Hs.
      apply in_or_app; left. apply H3; exact Hs.
  - intros d q v _ (H1 & H2 & H3 & H4 & H5). simpl.
    rewrite startedSources_app; simpl.
    split; [|split; [|split; [|split]]].
    + apply NoDup_app.  repeat split.
      * exact H1.
      * constructor; [intros []|constructor].
      * intros x Hx [<-|[]]. specialize (H2 _ Hx). lia.
    + intros s Hs. apply in_app_or in Hs. destruct Hs as [Hs|[<-|[]]].
      * specialize (H2 _ Hs). lia.
      * lia.
    + intros s Hs. apply In_Set_add_inv in Hs. apply in_or_app.
      destruct Hs as [->|Hs]; [right; left; reflexivity | left; auto].
    + apply NoDup_Set_add; exact H4.
    + apply stopsFollowStarts_app; [exact H5 | exact I].
  - intros v (H1 & H2 & H3 & H4 & H5). rewrite stopSources_logs; simpl.
    assert (Hs : forall l, startedSources (map SourceStop l) = [])
      by (induction l; simpl; auto).
    rewrite startedSources_app, Hs, app_nil_r.
    repeat split; try assumption.
    + intros s [].
    + constructor.
    + apply stopsFollowStarts_app; [exact H5|]. rewrite app_nil_r.
      clear - H3. induction (audioSources v) as [|x l IH]; simpl; [exact I|].
      split; [apply H3; left; reflexivity|]. apply IH.
      intros s Hin. apply H3. right; exact Hin.
  - intros s v (H1 & H2 & H3 & H4 & H5). unfold source_onended; simpl.
    repeat split; try assumption.
    + intros x Hx. apply H3. unfold Set_delete in Hx.
      apply filter_In in Hx. tauto.
    + apply NoDup_filter; exact H4.
Qed.

(** X3.  Along every run from the initial state: no source node is passed
    to [start] twice; the nodes of [audioSourcesRef] are distinct and each has
    been started; and [stop] is called on a node only after its [start]. *)
Theorem source_nodes_discipline (mode : ReactMode)
    (decodeAudioData : string -> Completion Q) (evs : list Event) :
  let w := run mode decodeAudioData evs initialWorld in
  NoDup (startedSources (trace w))
  /\ NoDup (audioSources w)
  /\ (forall s, In s (audioSources w) -> In s (startedSources (trace w)))
  /\ stopsFollowStarts [] (trace w).
Proof.
  intro w.
  assert (H : sourcesInv w).
  { apply (run_keeps mode decodeAudioData sourcesInv).
    - intros e v. apply step_sourcesInv.
    - unfold sourcesInv; simpl. repeat split; try constructor.
      all: intros s []. }
  destruct H as (H1 & _ & H3 & H4 & H5). auto.
Qed.

(** ** No negative time *)

Lemma step_timesOk (mode : ReactMode)
    (decodeAudioData : string -> Completion Q) :
  (forall d q, decodeAudioData d = Normal q -> (0 <= q)%Q) ->
  forall (e : Event) (w : World),
    timesOk w -> timesOk (step mode decodeAudioData w e).
Proof.
  intro Hdur. apply step_keeps; unfold timesOk;
    try solve [intros; simpl; assumption].
  - intros u v _ Hv. unfold setSession. destruct mode; exact Hv.
  - intros ts u v Hv. unfold setTranscriptions. destruct mode; exact Hv.
  - intros v [H1 H2]. rewrite stopAllStreams_eq; simpl.
    rewrite scheduledStarts_app, scheduledStarts_teardownOps, app_nil_r.
    auto.
  - intros ct v [H1 H2]. simpl. split; [|exact H2].
    pose proof (Math_max_ge_l (nextStartTime v) ct). lra.
  - intros d q v Hq [H1 H2]. simpl. specialize (Hdur d q Hq).
    split; [lra|]. rewrite scheduledStarts_app; simpl.
    apply Forall_app. split; [exact H2|]. constructor; [exact H1|constructor].
  - intros v [H1 H2]. rewrite stopSources_logs; simpl.
    rewrite scheduledStarts_app, scheduledStarts_map_SourceStop, app_nil_r.
    split; [apply Qle_refl | exact H2].
Qed.

(** X4.  When the decoder yields buffers of non-negative duration, no run
    from the initial state passes a negative time to [start] or leaves the
    playback cursor negative, whatever clock values the events carry. *)
Theorem playback_times_never_negative (mode : ReactMode)
    (decodeAudioData : string -> Completion Q) :
  (forall d q, decodeAudioData d = Normal q -> (0 <= q)%Q) ->
  forall evs : list Event,
    let w := run mode decodeAudioData evs initialWorld in
    (0 <= nextStartTime w)%Q
    /\ Forall (fun t => 0 <= t)%Q (scheduledStarts (trace w)).
Proof.
  intros Hdur evs w.
  apply (run_keeps mode decodeAudioData timesOk).
  - intros e v. apply step_timesOk; exact Hdur.
  - split; [apply Qle_refl | constructor].
Qed.

Lemma playback_times_never_negative_witness :
  let w :=
    run Deferred Sample.decodeAudioData
      [EvStartClick Sample.granted; EvOpen 7;
       EvMessage (-3) 1 (Sample.audioDelta "ab");
       EvMessage (-2) 2 Sample.interruptedMsg;
       EvMessage (-1) 3 (Sample.audioDelta "abcd")]
      initialWorld in
  Forall (fun t => 0 <= t)%Q (scheduledStarts (trace w)).
Proof.
  exact (proj2 (playback_times_never_negative Deferred Sample.decodeAudioData
                  sample_durations_nonnegative
                  [EvStartClick Sample.granted; EvOpen 7;
                   EvMessage (-3) 1 (Sample.audioDelta "ab");
                   EvMessage (-2) 2 Sample.interruptedMsg;
                   EvMessage (-1) 3 (Sample.audioDelta "abcd")])).
Defined.

(** ** The audio contexts *)

Lemma step_contexts (mode : ReactMode)
    (decodeAudioData : string -> Completion Q) (e : Event) (w : World) :
  (inputAudioCtx w = true ->
   inputAudioCtx (step mode decodeAudioData w e) = true)
  /\ (outputAudioCtx w = true ->
      outputAudioCtx (step mode decodeAudioData w e) = true).
Proof.
  split; intro H; revert H.
  - apply (step_keeps mode decodeAudioData
             (fun w => inputAudioCtx w = true));
      try solve [intros; simpl; assumption || reflexivity].
    + intros u v _ Hv. unfold setSession. destruct mode; exact Hv.
    + intros ts u v Hv. unfold setTranscriptions. destruct mode; exact Hv.
    + intros v Hv. rewrite stopAllStreams_eq. exact Hv.
    + intros v Hv. rewrite stopSources_logs. exact Hv.
  - apply (step_keeps mode decodeAudioData
             (fun w => outputAudioCtx w = true));
      try solve [intros; simpl; assumption || reflexivity].
    + intros u v _ Hv. unfold setSession. destruct mode; exact Hv.
    + intros ts u v Hv. unfold setTranscriptions. destruct mode; exact Hv.
    + intros v Hv. rewrite stopAllStreams_eq. exact Hv.
    + intros v Hv. rewrite stopSources_logs. exact Hv.
Qed.

(** X5.  The audio contexts are created at most once: when both exist,
    [startLiveSession] does not call their constructor (its result does not
    depend on what the constructor would do), and no event, a stop or a
    failed start included, removes them. *)
Theorem audio_contexts_are_reused (mode : ReactMode)
    (decodeAudioData : string -> Completion Q) (w : World) :
  inputAudioCtx w = true -> outputAudioCtx w = true ->
  (forall (env : StartEnv) (c1 c2 : Completion unit),
     startLiveSession mode env w
     = startLiveSession mode
         (mkStartEnv (newGoogleGenAI env) c1 c2 (getUserMedia env)
            (getDisplayMedia env)) w)
  /\ (forall evs : list Event,
        inputAudioCtx (run mode decodeAudioData evs w) = true
        /\ outputAudioCtx (run mode decodeAudioData evs w) = true).
Proof.
  intros Hi Ho. split.
  - intros env c1 c2.
    unfold startLiveSession, startLiveSession_try, exec, tryCatch, bind,
      modify, gets, settle, when, ret. simpl.
    assert (Hi' : inputAudioCtx (setSession mode ToConnecting w) = true)
      by (unfold setSession; destruct mode; exact Hi).
    assert (Ho' : outputAudioCtx (setSession mode ToConnecting w) = true)
      by (unfold setSession; destruct mode; exact Ho).
    destruct (newGoogleGenAI env); simpl; [|reflexivity].
    rewrite Hi'; simpl. rewrite Ho'; simpl. reflexivity.
  - intro evs.
    apply (run_keeps mode decodeAudioData
             (fun v => inputAudioCtx v = true /\ outputAudioCtx v = true));
      [|auto].
    intros e v [H1 H2].
    destruct (step_contexts mode decodeAudioData e v) as [A B]. auto.
Qed.

Lemma audio_contexts_are_reused_witness :
  startLiveSession Deferred Sample.granted (Sample.connected Deferred)
  = startLiveSession Deferred
      (mkStartEnv (Normal tt)
         (Throw (mkJsError "NotSupportedError" "too many contexts"))
         (Throw (mkJsError "NotSupportedError" "too many contexts"))
         (Normal Sample.mic) (Normal Sample.screen))
      (Sample.connected Deferred).
Proof.
  exact (proj1 (audio_contexts_are_reused Deferred Sample.decodeAudioData
                  (Sample.connected Deferred) eq_refl eq_refl)
           Sample.granted
           (Throw (mkJsError "NotSupportedError" "too many contexts"))
           (Throw (mkJsError "NotSupportedError" "too many contexts"))).
Defined.

(** ** Every way a start can end *)

Ltac start_leaf :=
  unfold startLiveSession, startCompletes, caught, started, withScreen,
    withMic, withContexts, connecting, reachesMedia in *;
  unfold startLiveSession_try, exec, tryCatch, bind, modify, gets, settle,
    when, ret, throw in *;
  match goal with
  | env : StartEnv, w : World |- _ =>
      destruct env as [g ci co um dm];
      destruct w as [se tr ps pt ic oc nst srcs nid scr0 mc0 fi cin cout tc]
  end;
  simpl in *; subst; simpl in *.

Lemma start_genAI_throws (mode : ReactMode) (env : StartEnv) (w : World)
    (e : JsError) :
  newGoogleGenAI env = Throw e ->
  startLiveSession mode env w = caught mode e (connecting mode w)
  /\ startCompletes mode env w = false.
Proof. intro H. start_leaf. destruct mode; split; reflexivity. Qed.

Lemma start_inputCtx_throws (mode : ReactMode) (env : StartEnv) (w : World)
    (e : JsError) :
  isNormal (newGoogleGenAI env) = true ->
  inputAudioCtx w = false -> newInputAudioContext env = Throw e ->
  startLiveSession mode env w = caught mode e (connecting mode w)
  /\ startCompletes mode env w = false.
Proof.
  intros H1 H2 H3. start_leaf.
  destruct g; try discriminate. destruct mode; split; reflexivity.
Qed.

Lemma start_outputCtx_throws (mode : ReactMode) (env : StartEnv) (w : World)
    (e : JsError) :
  isNormal (newGoogleGenAI env) = true ->
  inputAudioCtx w || isNormal (newInputAudioContext env) = true ->
  outputAudioCtx w = false -> newOutputAudioContext env = Throw e ->
  startLiveSession mode env w
  = caught mode e (set_inputAudioCtx true (connecting mode w))
  /\ startCompletes mode env w = false.
Proof.
  intros H1 H2 H3 H4. start_leaf.
  destruct g, ic, ci; try discriminate; destruct mode; split; reflexivity.
Qed.

Lemma start_mic_throws (mode : ReactMode) (env : StartEnv) (w : World)
    (e : JsError) :
  reachesMedia env w = true -> getUserMedia env = Throw e ->
  startLiveSession mode env w = caught mode e (withContexts mode w)
  /\ startCompletes mode env w = false.
Proof.
  intros H1 H2. start_leaf.
  destruct g, ic, oc, ci, co; try discriminate;
    destruct mode; split; reflexivity.
Qed.

Lemma start_display_throws (mode : ReactMode) (env : StartEnv) (w : World)
    (mic : MediaStream) (e : JsError) :
  reachesMedia env w = true -> getUserMedia env = Normal mic ->
  getDisplayMedia env = Throw e ->
  startLiveSession mode env w
  = caught mode
      (if blockedByPolicy e then mkJsError "Error" blockedMessage else e)
      (withMic mode mic w)
  /\ startCompletes mode env w = false.
Proof.
  intros H1 H2 H3. start_leaf.
  destruct g, ic, oc, ci, co; try discriminate;
    destruct mode, (blockedByPolicy e); split; reflexivity.
Qed.

Lemma start_no_video_track (mode : ReactMode) (env : StartEnv) (w : World)
    (mic scr : MediaStream) :
  reachesMedia env w = true -> getUserMedia env = Normal mic ->
  getDisplayMedia env = Normal scr -> getVideoTracks scr = [] ->
  startLiveSession mode env w
  = caught mode noVideoTrackError (withScreen mode mic scr w)
  /\ startCompletes mode env w = false.
Proof.
  intros H1 H2 H3 H4. start_leaf. rewrite H4.
  destruct g, ic, oc, ci, co; try discriminate;
    destruct mode; split; reflexivity.
Qed.

Lemma start_succeeds (mode : ReactMode) (env : StartEnv) (w : World)
    (mic scr : MediaStream) :
  reachesMedia env w = true -> getUserMedia env = Normal mic ->
  getDisplayMedia env = Normal scr -> getVideoTracks scr <> [] ->
  startLiveSession mode env w = started mode mic scr w
  /\ startCompletes mode env w = true.
Proof.
  intros H1 H2 H3 H4. start_leaf.
  destruct (getVideoTracks scr) as [|t ts] eqn:Hv; [contradiction|].
  destruct g, ic, oc, ci, co; try discriminate;
    destruct mode; split; reflexivity.
Qed.

Lemma teardownOps_setSession (mode : ReactMode) (u : SessionUpdate)
    (w : World) : teardownOps (setSession mode u w) = teardownOps w.
Proof. unfold setSession; destruct mode; reflexivity. Qed.

Lemma caught_facts (mode : ReactMode) (dateNow : Z) (err : JsError)
    (v : World) :
  queuesRespectMode mode v ->
  let w' := render dateNow (caught mode err v) in
  status (session w') = StatusError
  /\ (exists msg, error (session w') = Some msg /\ truthy msg = true)
  /\ micStream w' = None /\ screenStream w' = None
  /\ frameInterval w' = None /\ audioSources w' = []
  /\ trace w' = trace v ++ teardownOps v.
Proof.
  intros Hq w'. subst w'. unfold caught.
  rewrite session_render, renderedSession_stopAllStreams,
    renderedSession_setSession by exact Hq.
  rewrite stopAllStreams_eq, teardownOps_setSession. simpl.
  split; [reflexivity|]. split.
  - eexists. split; [reflexivity|]. apply orElse_truthy. reflexivity.
  - repeat split. unfold setSession; destruct mode; reflexivity.
Qed.

Lemma queuesRespectMode_fields (mode : ReactMode) (w v : World) :
  pendingSession v = pendingSession w ->
  pendingTranscriptions v = pendingTranscriptions w ->
  queuesRespectMode mode w -> queuesRespectMode mode v.
Proof. intros H1 H2 Hq Hm. rewrite H1, H2. apply Hq; exact Hm. Qed.

Lemma queuesRespectMode_connecting (mode : ReactMode) (w : World) :
  queuesRespectMode mode w -> queuesRespectMode mode (connecting mode w).
Proof. apply queuesRespectMode_setSession. Qed.

Lemma renderedSession_connecting (mode : ReactMode) (w : World) :
  queuesRespectMode mode w ->
  renderedSession (connecting mode w)
  = applySessionUpdate ToConnecting (renderedSession w).
Proof. apply renderedSession_setSession. Qed.

(** How a failed start ends, whatever made it fail. *)
Lemma start_failure_facts (mode : ReactMode) (dateNow : Z) (env : StartEnv)
    (w v : World) (err : JsError) :
  queuesRespectMode mode v ->
  trace v = trace w ->
  startLiveSession mode env w = caught mode err v ->
  (reachesMedia env w = true ->
   forall mic, getUserMedia env = Normal mic -> micStream v = Some mic) ->
  (reachesMedia env w = true ->
   forall mic scr, getUserMedia env = Normal mic ->
                   getDisplayMedia env = Normal scr ->
                   screenStream v = Some scr) ->
  let w' := render dateNow (startLiveSession mode env w) in
  status (session w') = StatusError
  /\ (exists msg, error (session w') = Some msg /\ truthy msg = true)
  /\ micStream w' = None /\ screenStream w' = None
  /\ frameInterval w' = None /\ audioSources w' = []
  /\ (reachesMedia env w = true ->
      forall mic t, getUserMedia env = Normal mic -> In t (getTracks mic) ->
                    In (TrackStop t) (trace w'))
  /\ (reachesMedia env w = true ->
      forall mic scr t, getUserMedia env = Normal mic ->
                        getDisplayMedia env = Normal scr ->
                        In t (getTracks scr) -> In (TrackStop t) (trace w')).
Proof.
  intros Hq Htr Heq Hmic Hscr w'. subst w'. rewrite Heq.
  destruct (caught_facts mode dateNow err v Hq)
    as (H1 & H2 & H3 & H4 & H5 & H6 & H7).
  repeat split; try assumption.
  - intros Hr mic t Hm Ht. rewrite H7. apply in_or_app; right.
    unfold teardownOps. rewrite (Hmic Hr mic Hm).
    apply in_or_app; right. apply in_or_app; left. apply in_map; exact Ht.
  - intros Hr mic scr t Hm Hd Ht. rewrite H7. apply in_or_app; right.
    unfold teardownOps. rewrite (Hscr Hr mic scr Hm Hd).
    apply in_or_app; left. apply in_map; exact Ht.
Qed.

(** X6.  Every start ends in one of two ways.  Either its [try] block runs
    to the end: the rendered session is connecting with no error, both
    streams are held, the audio contexts exist, the accumulators are empty
    and nothing has been stopped.  Or something threw (a constructor, a
    refused microphone or screen, a screen stream without video track): the
    rendered session is in error with a non-empty message, no stream, timer
    or source is left, and every track of a stream acquired on the way has
    been stopped. *)
Theorem start_outcome (mode : ReactMode) (dateNow : Z) (env : StartEnv)
    (w : World) :
  queuesRespectMode mode w ->
  let w' := render dateNow (startLiveSession mode env w) in
  if startCompletes mode env w
  then
    status (session w') = StatusConnecting
    /\ error (session w') = None
    /\ (exists mic scr,
          getUserMedia env = Normal mic /\ getDisplayMedia env = Normal scr
          /\ micStream w' = Some mic /\ screenStream w' = Some scr)
    /\ inputAudioCtx w' = true /\ outputAudioCtx w' = true
    /\ currentInputTranscription w' = ""
    /\ currentOutputTranscription w' = ""
    /\ trace w' = trace w
  else
    status (session w') = StatusError
    /\ (exists msg, error (session w') = Some msg /\ truthy msg = true)
    /\ micStream w' = None /\ screenStream w' = None
    /\ frameInterval w' = None /\ audioSources w' = []
    /\ (reachesMedia env w = true ->
        forall mic t, getUserMedia env = Normal mic -> In t (getTracks mic) ->
                      In (TrackStop t) (trace w'))
    /\ (reachesMedia env w = true ->
        forall mic scr t, getUserMedia env = Normal mic ->
                          getDisplayMedia env = Normal scr ->
                          In t (getTracks scr) -> In (TrackStop t) (trace w')).
Proof.
  intros Hq w'.
  pose proof (queuesRespectMode_connecting mode w Hq) as Hqc.
  assert (Htc : trace (connecting mode w) = trace w)
    by (unfold connecting, setSession; destruct mode; reflexivity).
  destruct (newGoogleGenAI env) as [u|e] eqn:Hg.
  2:{ destruct (start_genAI_throws mode env w e Hg) as [Heq Hc]. rewrite Hc.
      apply (start_failure_facts mode dateNow env w (connecting mode w) e);
        auto; unfold reachesMedia; rewrite Hg; discriminate. }
  assert (Hgn : isNormal (newGoogleGenAI env) = true) by (rewrite Hg; reflexivity).
  destruct (inputAudioCtx w || isNormal (newInputAudioContext env)) eqn:Hi.
  2:{ apply orb_false_iff in Hi. destruct Hi as [Hi1 Hi2].
      destruct (newInputAudioContext env) as [u'|e] eqn:Hin; [discriminate|].
      destruct (start_inputCtx_throws mode env w e Hgn Hi1 Hin) as [Heq Hc].
      rewrite Hc.
      apply (start_failure_facts mode dateNow env w (connecting mode w) e);
        auto; unfold reachesMedia; rewrite Hg, Hi1, Hin; discriminate. }
  destruct (outputAudioCtx w || isNormal (newOutputAudioContext env)) eqn:Ho.
  2:{ apply orb_false_iff in Ho. destruct Ho as [Ho1 Ho2].
      destruct (newOutputAudioContext env) as [u'|e] eqn:Hout; [discriminate|].
      destruct (start_outputCtx_throws mode env w e Hgn Hi Ho1 Hout)
        as [Heq Hc].
      rewrite Hc.
      apply (start_failure_facts mode dateNow env w
               (set_inputAudioCtx true (connecting mode w)) e); auto.
      - unfold reachesMedia. rewrite Hg, Ho1, Hout.
        rewrite andb_false_r. discriminate.
      - unfold reachesMedia. rewrite Hg, Ho1, Hout.
        rewrite andb_false_r. discriminate. }
  assert (Hr : reachesMedia env w = true).
  { unfold reachesMedia. rewrite Hg.
    unfold isNormal in Hi, Ho. rewrite Hi, Ho. reflexivity. }
  assert (Hqx : queuesRespectMode mode (withContexts mode w)) by exact Hqc.
  assert (Hum : (exists mic, getUserMedia env = Normal mic)
                \/ (exists e, getUserMedia env = Throw e))
    by (destruct (getUserMedia env); eauto).
  destruct Hum as [[mic Hm]|[e Hm]].
  2:{ destruct (start_mic_throws mode env w e Hr Hm) as [Heq Hc]. rewrite Hc.
      apply (start_failure_facts mode dateNow env w (withContexts mode w) e);
        auto; intros; congruence. }
  assert (Hdm : (exists scr, getDisplayMedia env = Normal scr)
                \/ (exists e, getDisplayMedia env = Throw e))
    by (destruct (getDisplayMedia env); eauto).
  destruct Hdm as [[scr Hd]|[e Hd]].
  2:{ destruct (start_display_throws mode env w mic e Hr Hm Hd) as [Heq Hc].
      rewrite Hc.
      apply (start_failure_facts mode dateNow env w (withMic mode mic w)
               (if blockedByPolicy e
                then mkJsError "Error" blockedMessage else e)); auto.
      - intros _ mic' Hm'. rewrite Hm in Hm'. injection Hm' as <-. reflexivity.
      - intros _ mic' scr' _ Hd'. congruence. }
  destruct (getVideoTracks scr) as [|t ts] eqn:Hv.
  - destruct (start_no_video_track mode env w mic scr Hr Hm Hd Hv)
      as [Heq Hc].
    rewrite Hc.
    apply (start_failure_facts mode dateNow env w (withScreen mode mic scr w)
             noVideoTrackError); auto.
    + intros _ mic' Hm'. rewrite Hm in Hm'. injection Hm' as <-. reflexivity.
    + intros _ mic' scr' _ Hd'. rewrite Hd in Hd'. injection Hd' as <-.
      reflexivity.
  - assert (Hne : getVideoTracks scr <> []) by (rewrite Hv; discriminate).
    destruct (start_succeeds mode env w mic scr Hr Hm Hd Hne) as [Heq Hc].
    rewrite Hc. subst w'. rewrite Heq.
    rewrite session_render.
    change (renderedSession (started mode mic scr w))
      with (renderedSession (connecting mode w)).
    rewrite renderedSession_connecting by exact Hq. simpl.
    repeat split; try assumption.
    exists mic, scr. auto.
Qed.

Lemma start_outcome_witness :
  let w' :=
    render 1
      (startLiveSession Deferred
         (mkStartEnv (Normal tt) (Normal tt) (Normal tt) (Normal Sample.mic)
            (Normal (mkMediaStream [3%nat] [])))
         initialWorld) in
  status (session w') = StatusError
  /\ In (TrackStop 1%nat) (trace w') /\ In (TrackStop 3%nat) (trace w').
Proof.
  assert (Hq : queuesRespectMode Deferred initialWorld)
    by (intro H; discriminate H).
  pose proof (start_outcome Deferred 1
                (mkStartEnv (Normal tt) (Normal tt) (Normal tt)
                   (Normal Sample.mic) (Normal (mkMediaStream [3%nat] [])))
                initialWorld Hq) as H.
  simpl in H. destruct H as (Hst & _ & _ & _ & _ & _ & Hmic & Hscr).
  split; [exact Hst|]. split.
  - apply (Hmic eq_refl Sample.mic 1%nat eq_refl). left; reflexivity.
  - apply (Hscr eq_refl Sample.mic (mkMediaStream [3%nat] []) 3%nat
             eq_refl eq_refl).
    left; reflexivity.
Defined.

Lemma startCompletes_inv (mode : ReactMode) (env : StartEnv) (w : World) :
  startCompletes mode env w = true ->
  exists mic scr,
    reachesMedia env w = true /\ getUserMedia env = Normal mic
    /\ getDisplayMedia env = Normal scr /\ getVideoTracks scr <> [].
Proof.
  intro Hc.
  destruct (newGoogleGenAI env) as [u|e] eqn:Hg.
  2:{ destruct (start_genAI_throws mode env w e Hg); congruence. }
  assert (Hgn : isNormal (newGoogleGenAI env) = true)
    by (rewrite Hg; reflexivity).
  destruct (inputAudioCtx w || isNormal (newInputAudioContext env)) eqn:Hi.
  2:{ apply orb_false_iff in Hi. destruct Hi as [Hi1 Hi2].
      destruct (newInputAudioContext env) as [u'|e] eqn:Hin; [discriminate|].
      destruct (start_inputCtx_throws mode env w e Hgn Hi1 Hin); congruence. }
  destruct (outputAudioCtx w || isNormal (newOutputAudioContext env)) eqn:Ho.
  2:{ apply orb_false_iff in Ho. destruct Ho as [Ho1 Ho2].
      destruct (newOutputAudioContext env) as [u'|e] eqn:Hout; [discriminate|].
      destruct (start_outputCtx_throws mode env w e Hgn Hi Ho1 Hout);
        congruence. }
  assert (Hr : reachesMedia env w = true).
  { unfold reachesMedia. rewrite Hg.
    unfold isNormal in Hi, Ho. rewrite Hi, Ho. reflexivity. }
  destruct (getUserMedia env) as [mic|e] eqn:Hm.
  2:{ destruct (start_mic_throws mode env w e Hr Hm); congruence. }
  destruct (getDisplayMedia env) as [scr|e] eqn:Hd.
  2:{ destruct (start_display_throws mode env w mic e Hr Hm Hd); congruence. }
  destruct (getVideoTracks scr) as [|t ts] eqn:Hv.
  - destruct (start_no_video_track mode env w mic scr Hr Hm Hd Hv); congruence.
  - exists mic, scr. repeat split; try reflexivity; try assumption. congruence.
Qed.

(** ** From a start to a connected session *)

(** X7.  A start whose [try] block completes, the opening of the channel
    and a render leave the session connected, active and sharing, with no
    error message whatever error was shown before, the two streams held,
    the frame timer installed, and nothing stopped. *)
Theorem start_then_open_connects (mode : ReactMode)
    (decodeAudioData : string -> Completion Q) (dateNow : Z) (env : StartEnv)
    (timerId : positive) (w : World) :
  queuesRespectMode mode w ->
  startCompletes mode env w = true ->
  let w' :=
    run mode decodeAudioData
      [EvStartClick env; EvOpen timerId; EvRender dateNow] w in
  status (session w') = StatusConnected
  /\ isActive (session w') = true
  /\ isScreenSharing (session w') = true
  /\ error (session w') = None
  /\ frameInterval w' = Some timerId
  /\ (exists mic scr,
        getUserMedia env = Normal mic /\ getDisplayMedia env = Normal scr
        /\ micStream w' = Some mic /\ screenStream w' = Some scr)
  /\ trace w' = trace w.
Proof.
  intros Hq Hc w'.
  destruct (startCompletes_inv mode env w Hc) as (mic & scr & Hr & Hm & Hd & Hv).
  destruct (start_succeeds mode env w mic scr Hr Hm Hd Hv) as [Heq _].
  subst w'.
  change (run mode decodeAudioData
            [EvStartClick env; EvOpen timerId; EvRender dateNow] w)
    with (render dateNow (onopen mode timerId (startLiveSession mode env w))).
  rewrite Heq.
  assert (Hs : renderedSession (onopen mode timerId (started mode mic scr w))
               = applySessionUpdate ToConnected
                   (applySessionUpdate ToConnecting (renderedSession w))).
  { unfold onopen.
    change (renderedSession
              (set_frameInterval (Some timerId)
                 (setSession mode ToConnected (started mode mic scr w))))
      with (renderedSession
              (setSession mode ToConnected (started mode mic scr w))).
    rewrite renderedSession_setSession.
    - change (renderedSession (started mode mic scr w))
        with (renderedSession (connecting mode w)).
      rewrite renderedSession_connecting by exact Hq. reflexivity.
    - apply (queuesRespectMode_fields mode (connecting mode w));
        [reflexivity | reflexivity |].
      apply queuesRespectMode_connecting; exact Hq. }
  rewrite session_render, Hs. simpl.
  repeat split.
  - exists mic, scr. repeat split; try assumption;
      unfold setSession; destruct mode; reflexivity.
  - unfold onopen, started, withScreen, withMic, withContexts, connecting,
      setSession; destruct mode; reflexivity.
Qed.

Lemma start_then_open_connects_witness :
  let failed :=
    render 1 (startLiveSession Deferred Sample.micRefused initialWorld) in
  let w' :=
    run Deferred Sample.decodeAudioData
      [EvStartClick Sample.granted; EvOpen 7; EvRender 2] failed in
  error (session failed) = Some "Permission denied"
  /\ status (session w') = StatusConnected
  /\ error (session w') = None.
Proof.
  intros failed w'.
  assert (Hq : queuesRespectMode Deferred failed)
    by (intro H; discriminate H).
  destruct (start_then_open_connects Deferred Sample.decodeAudioData 2
              Sample.granted 7 failed Hq eq_refl)
    as (H1 & _ & _ & H4 & _).
  split; [reflexivity|]. split; [exact H1 | exact H4].
Defined.

(** ** A stop does not reset the cursor *)

Lemma not_message_is_quiet (e : Event) :
  isMessage e = false -> quietEvent e = true.
Proof. destruct e; simpl; intro H; reflexivity || discriminate H. Qed.

(** X8.  Unlike an interruption, a stop leaves the playback cursor where it
    was, and so does a restart: after any events that are not channel
    messages (stops, starts, openings, errors, renders), the next decoded
    buffer starts at [Math_max] of the cursor before them and the clock; when
    the clock is behind a cursor left by the session before, the buffer
    starts at that old cursor. *)
Theorem stop_keeps_the_cursor (mode : ReactMode)
    (decodeAudioData : string -> Completion Q) (w : World)
    (between : list Event) (ct : Q) (ts : Z) (msg : LiveServerMessage)
    (d : string) (q : Q) :
  forallb (fun e => negb (isMessage e)) between = true ->
  outputAudioCtx w = true ->
  modelTurnAudio msg = Some d -> truthy d = true ->
  decodeAudioData d = Normal q ->
  let w' :=
    run mode decodeAudioData (between ++ [EvMessage ct ts msg]) w in
  scheduledStarts (trace w')
  = scheduledStarts (trace w) ++ [Math_max (nextStartTime w) ct]
  /\ ((ct <= nextStartTime w)%Q ->
      Math_max (nextStartTime w) ct = nextStartTime w).
Proof.
  intros Hb Hc Ha Ht Hq w'. subst w'.
  assert (Hquiet : forallb quietEvent between = true).
  { apply forallb_forall. intros e He.
    apply not_message_is_quiet. apply negb_true_iff.
    exact (proj1 (forallb_forall _ _) Hb e He). }
  destruct (run_quiet mode decodeAudioData between w Hquiet)
    as (Hn & Hs & Hctx).
  rewrite run_snoc.
  set (v := run mode decodeAudioData between w) in *.
  pose proof (decodedPayload_intro msg v d Ha Ht (Hctx Hc)) as Hp.
  destruct (onmessage_audio mode decodeAudioData ct ts msg v d q Hp Hq)
    as (v' & Hv' & _ & _ & _ & Htr).
  change (step mode decodeAudioData v (EvMessage ct ts msg))
    with (exec (onmessage mode decodeAudioData ct ts msg) v).
  unfold exec. rewrite Hv'; simpl. rewrite Htr.
  rewrite !scheduledStarts_app, Hs, Hn. simpl. split.
  - destruct (interrupted msg); simpl;
      rewrite ?scheduledStarts_map_SourceStop; reflexivity.
  - apply Math_max_l.
Qed.

Lemma stop_keeps_the_cursor_witness :
  let w' :=
    run Deferred Sample.decodeAudioData
      ([EvStopClick; EvRender 3; EvStartClick Sample.granted; EvOpen 8;
        EvRender 4]
       ++ [EvMessage (1 # 2) 5 (Sample.audioDelta "ab")])
      (Sample.playing Deferred) in
  scheduledStarts (trace w')
  = scheduledStarts (trace (Sample.playing Deferred))
    ++ [Math_max (nextStartTime (Sample.playing Deferred)) (1 # 2)].
Proof.
  exact (proj1 (stop_keeps_the_cursor Deferred Sample.decodeAudioData
                  (Sample.playing Deferred)
                  [EvStopClick; EvRender 3; EvStartClick Sample.granted;
                   EvOpen 8; EvRender 4]
                  (1 # 2) 5 (Sample.audioDelta "ab") "ab" (2 # 2)
                  eq_refl eq_refl eq_refl eq_refl eq_refl)).
Defined.

(** ** A payload that the decoder rejects *)

(** X9.  When the decoder throws on the payload of a message, the handler
    stops there: the cursor has been moved up to the clock, and nothing else
    of the message is processed.  Its transcript deltas are not accumulated,
    its [turnComplete] commits nothing and its [interrupted] flag stops no
    source. *)
Theorem rejected_payload_drops_the_message (mode : ReactMode)
    (decodeAudioData : string -> Completion Q) (ct : Q) (ts : Z)
    (msg : LiveServerMessage) (w : World) (d : string) (e : JsError) :
  modelTurnAudio msg = Some d -> truthy d = true ->
  outputAudioCtx w = true -> decodeAudioData d = Throw e ->
  let w' := step mode decodeAudioData w (EvMessage ct ts msg) in
  fst (onmessage mode decodeAudioData ct ts msg w) = Throw e
  /\ nextStartTime w' = Math_max (nextStartTime w) ct
  /\ audioSources w' = audioSources w
  /\ trace w' = trace w
  /\ currentInputTranscription w' = currentInputTranscription w
  /\ currentOutputTranscription w' = currentOutputTranscription w
  /\ transcriptions w' = transcriptions w
  /\ pendingTranscriptions w' = pendingTranscriptions w.
Proof.
  intros Ha Ht Hc Hq w'. subst w'. simpl. unfold exec.
  rewrite (onmessage_decode_throws mode decodeAudioData ct ts msg w d e
             (decodedPayload_intro msg w d Ha Ht Hc) Hq).
  simpl. repeat split; reflexivity.
Qed.

Lemma rejected_payload_drops_the_message_witness :
  let msg := mkMessage (Some "bad") true (Some "hello") None true in
  let w' :=
    step Immediate Sample.decodeAudioData (Sample.playing Immediate)
      (EvMessage 9 5 msg) in
  audioSources w' = [0%nat; 1%nat]
  /\ currentInputTranscription w' = ""
  /\ transcriptions w' = [].
Proof.
  intros msg w'.
  destruct (rejected_payload_drops_the_message Immediate
              Sample.decodeAudioData 9 5 msg (Sample.playing Immediate) "bad"
              (mkJsError "RangeError"
                 "byte length of Int16Array should be a multiple of 2")
              eq_refl eq_refl eq_refl eq_refl)
    as (_ & _ & H3 & _ & H5 & _ & H7 & _).
  split; [exact H3|]. split; [exact H5 | exact H7].
Defined.

(** ** The end of a source node *)

Lemma In_Set_delete (s x : SourceId) (l : list SourceId) :
  In x (Set_delete s l) <-> In x l /\ x <> s.
Proof.
  unfold Set_delete. rewrite filter_In. split; intros [H1 H2]; split; auto.
  - intros ->. rewrite Nat.eqb_refl in H2. discriminate.
  - apply negb_true_iff. apply Nat.eqb_neq. auto.
Qed.

Lemma Set_delete_Set_add (s : SourceId) (l : list SourceId) :
  ~ In s l -> Set_delete s (Set_add s l) = l.
Proof.
  intro Hs. unfold Set_add.
  destruct (existsb (Nat.eqb s) l) eqn:E.
  - apply existsb_exists in E. destruct E as (x & Hx & Hxs).
    apply Nat.eqb_eq in Hxs. subst x. contradiction.
  - unfold Set_delete. rewrite filter_app; simpl. rewrite Nat.eqb_refl; simpl.
    rewrite app_nil_r. clear E. induction l as [|y l IH]; simpl; [reflexivity|].
    destruct (Nat.eqb s y) eqn:Ey.
    + apply Nat.eqb_eq in Ey. subst y. exfalso. apply Hs. left; reflexivity.
    + simpl. f_equal. apply IH. intro H. apply Hs. right; exact H.
Qed.

(** X10.  When a source node ends by itself it leaves [audioSourcesRef],
    and only it: a later stop does not call [stop] on it. *)
Theorem ended_source_is_forgotten (mode : ReactMode) (s : SourceId)
    (w : World) :
  let w' := source_onended s w in
  ~ In s (audioSources w')
  /\ (forall x, x <> s -> (In x (audioSources w') <-> In x (audioSources w)))
  /\ ~ In (SourceStop s) (teardownOps w')
  /\ trace (handleStopSession mode w') = trace w ++ teardownOps w'.
Proof.
  intro w'. subst w'. unfold source_onended. simpl.
  split; [|split; [|split]].
  - intro H. apply In_Set_delete in H. destruct H as [_ H]. apply H; reflexivity.
  - intros x Hx. rewrite In_Set_delete. tauto.
  - unfold teardownOps; simpl. intro H.
    repeat (apply in_app_or in H; destruct H as [H|H]).
    + apply in_map_iff in H. destruct H as (t & Ht & _). discriminate Ht.
    + apply in_map_iff in H. destruct H as (t & Ht & _). discriminate Ht.
    + destruct (frameInterval w); simpl in H; [destruct H as [H|[]]|destruct H].
      discriminate H.
    + apply in_map_iff in H. destruct H as (x & Hx & Hin).
      injection Hx as ->. apply In_Set_delete in Hin. destruct Hin as [_ Hin].
      apply Hin; reflexivity.
  - destruct (handleStopSession_refs mode
                (set_audioSources (Set_delete s (audioSources w)) w))
      as (_ & _ & _ & _ & Ht & _).
    exact Ht.
Qed.

(** X11.  A buffer that is scheduled and then ends leaves the set of
    playing sources as it was (the nodes of the set being older than the one
    created, as they are along a run). *)
Theorem scheduled_then_ended (mode : ReactMode)
    (decodeAudioData : string -> Completion Q) (ct : Q) (ts : Z)
    (msg : LiveServerMessage) (d : string) (q : Q) (w : World) :
  decodedPayload msg w = Some d -> decodeAudioData d = Normal q ->
  interrupted msg = false ->
  (forall x, In x (audioSources w) -> (x < nextSourceId w)%nat) ->
  audioSources
    (run mode decodeAudioData
       [EvMessage ct ts msg; EvSourceEnded (nextSourceId w)] w)
  = audioSources w.
Proof.
  intros Hd Hq Hi Hfresh.
  destruct (onmessage_audio mode decodeAudioData ct ts msg w d q Hd Hq)
    as (v & Hv & _ & _ & Hsrc & _).
  unfold run; simpl. unfold exec. rewrite Hv; simpl.
  unfold source_onended; simpl. rewrite Hsrc, Hi.
  apply Set_delete_Set_add. intro Hin. specialize (Hfresh _ Hin). lia.
Qed.

Lemma scheduled_then_ended_witness :
  audioSources
    (run Deferred Sample.decodeAudioData
       [EvMessage 3 4 (Sample.audioDelta "abcdef"); EvSourceEnded 2%nat]
       (Sample.playing Deferred))
  = [0%nat; 1%nat].
Proof.
  apply (scheduled_then_ended Deferred Sample.decodeAudioData 3 4
           (Sample.audioDelta "abcdef") "abcdef" (6 # 2)
           (Sample.playing Deferred) eq_refl eq_refl eq_refl).
  intros x Hx. vm_compute in Hx.
  destruct Hx as [<-|[<-|[]]]; vm_compute; lia.
Defined.

(** ** The screen request refused *)

Lemma prefix_spec (p s : string) :
  String.prefix p s = true <-> exists t, s = (p ++ t)%string.
Proof.
  revert s. induction p as [|c p IH]; intro s.
  - split; [intros _; exists s; reflexivity|].
    intros _. destruct s; reflexivity.
  - destruct s as [|c' s]; simpl.
    + split; [discriminate | intros [t Ht]; discriminate Ht].
    + destruct (Ascii.ascii_dec c c') as [->|Hne].
      * rewrite IH. split; intros [t Ht]; exists t; congruence.
      * split; [discriminate|]. intros [t Ht]. congruence.
Qed.

Lemma includes_nil (needle : string) :
  includes "" needle = String.prefix needle "".
Proof.
  cbn [includes]. destruct (String.prefix needle ""); reflexivity.
Qed.

Lemma includes_cons (c : ascii) (hay needle : string) :
  includes (String c hay) needle
  = String.prefix needle (String c hay) || includes hay needle.
Proof.
  cbn [includes]. destruct (String.prefix needle (String c hay)); reflexivity.
Qed.

Lemma includes_spec (hay needle : string) :
  includes hay needle = true
  <-> exists pre post, hay = (pre ++ needle ++ post)%string.
Proof.
  induction hay as [|c hay IH].
  - rewrite includes_nil, prefix_spec. split.
    + intros [t Ht]. exists "", t. exact Ht.
    + intros (pre & post & H). destruct pre; simpl in H; [|discriminate H].
      exists post. exact H.
  - rewrite includes_cons, orb_true_iff, prefix_spec, IH. split.
    + intros [[t Ht]|(pre & post & H)].
      * exists "", t. exact Ht.
      * exists (String c pre), post. simpl. rewrite H. reflexivity.
    + intros (pre & post & H). destruct pre as [|c' pre]; simpl in H.
      * left. exists post. exact H.
      * right. injection H as _ H. exists pre, post. exact H.
Qed.

(** X12.  A refused screen request is reported with the message about the
    permissions policy exactly when the error is named [NotAllowedError] or
    its message contains the words [permissions policy] somewhere; any other
    error keeps its own message. *)
Theorem screen_refusal_message (mode : ReactMode) (dateNow : Z)
    (env : StartEnv) (w : World) (mic : MediaStream) (e : JsError) :
  queuesRespectMode mode w ->
  reachesMedia env w = true ->
  getUserMedia env = Normal mic -> getDisplayMedia env = Throw e ->
  let shown := error (session (render dateNow (startLiveSession mode env w))) in
  (name e = "NotAllowedError"
   \/ (exists pre post,
         message e = (pre ++ "permissions policy" ++ post)%string) ->
   shown = Some blockedMessage)
  /\ (name e <> "NotAllowedError" ->
      (forall pre post,
         message e <> (pre ++ "permissions policy" ++ post)%string) ->
      shown = Some (orElse (message e) fallbackMessage)).
Proof.
  intros Hq Hr Hm Hd shown. subst shown.
  destruct (start_display_throws mode env w mic e Hr Hm Hd) as [Heq _].
  rewrite Heq. unfold caught.
  rewrite session_render, renderedSession_stopAllStreams,
    renderedSession_setSession
    by (apply (queuesRespectMode_fields mode (connecting mode w));
        [reflexivity | reflexivity | apply queuesRespectMode_connecting;
                                      exact Hq]).
  simpl.
  assert (Hb : blockedByPolicy e = true
               <-> name e = "NotAllowedError"
                   \/ exists pre post,
                        message e
                        = (pre ++ "permissions policy" ++ post)%string).
  { unfold blockedByPolicy. rewrite orb_true_iff, String.eqb_eq, includes_spec.
    reflexivity. }
  split.
  - intro H. apply Hb in H. rewrite H. reflexivity.
  - intros Hn Hp. destruct (blockedByPolicy e) eqn:E; [|reflexivity].
    destruct (proj1 Hb eq_refl) as [H|(pre & post & H)]; [contradiction|].
    exfalso. exact (Hp pre post H).
Qed.

Lemma screen_refusal_message_witness :
  let policy :=
    mkJsError "SecurityError"
      "Access to the feature display-capture is disallowed by permissions policy." in
  error (session (render 1
           (startLiveSession Deferred
              (mkStartEnv (Normal tt) (Normal tt) (Normal tt)
                 (Normal Sample.mic) (Throw policy))
              initialWorld)))
  = Some blockedMessage.
Proof.
  intro policy.
  assert (Hq : queuesRespectMode Deferred initialWorld)
    by (intro H; discriminate H).
  apply (proj1 (screen_refusal_message Deferred 1
                  (mkStartEnv (Normal tt) (Normal tt) (Normal tt)
                     (Normal Sample.mic) (Throw policy))
                  initialWorld Sample.mic policy Hq eq_refl eq_refl eq_refl)).
  right.
  exists "Access to the feature display-capture is disallowed by ", ".".
  reflexivity.
Defined.

(** ** What the user sees *)

Lemma start_failure_cases (mode : ReactMode) (env : StartEnv) (w : World) :
  startCompletes mode env w = false ->
  exists err v,
    startLiveSession mode env w = caught mode err v
    /\ session v = session (connecting mode w)
    /\ pendingSession v = pendingSession (connecting mode w)
    /\ pendingTranscriptions v = pendingTranscriptions w
    /\ transcriptions v = transcriptions w.
Proof.
  intro Hc.
  assert (Hpt : pendingTranscriptions (connecting mode w)
                = pendingTranscriptions w
                /\ transcriptions (connecting mode w) = transcriptions w)
    by (unfold connecting, setSession; destruct mode; split; reflexivity).
  destruct Hpt as [Hpt Htr].
  destruct (newGoogleGenAI env) as [u|e] eqn:Hg.
  2:{ destruct (start_genAI_throws mode env w e Hg) as [Heq _].
      exists e, (connecting mode w). auto. }
  assert (Hgn : isNormal (newGoogleGenAI env) = true)
    by (rewrite Hg; reflexivity).
  destruct (inputAudioCtx w || isNormal (newInputAudioContext env)) eqn:Hi.
  2:{ apply orb_false_iff in Hi. destruct Hi as [Hi1 Hi2].
      destruct (newInputAudioContext env) as [u'|e] eqn:Hin; [discriminate|].
      destruct (start_inputCtx_throws mode env w e Hgn Hi1 Hin) as [Heq _].
      exists e, (connecting mode w). auto. }
  destruct (outputAudioCtx w || isNormal (newOutputAudioContext env)) eqn:Ho.
  2:{ apply orb_false_iff in Ho. destruct Ho as [Ho1 Ho2].
      destruct (newOutputAudioContext env) as [u'|e] eqn:Hout; [discriminate|].
      destruct (start_outputCtx_throws mode env w e Hgn Hi Ho1 Hout)
        as [Heq _].
      exists e, (set_inputAudioCtx true (connecting mode w)). auto. }
  assert (Hr : reachesMedia env w = true).
  { unfold reachesMedia. rewrite Hg.
    unfold isNormal in Hi, Ho. rewrite Hi, Ho. reflexivity. }
  destruct (getUserMedia env) as [mic|e] eqn:Hm.
  2:{ destruct (start_mic_throws mode env w e Hr Hm) as [Heq _].
      exists e, (withContexts mode w). auto. }
  destruct (getDisplayMedia env) as [scr|e] eqn:Hd.
  2:{ destruct (start_display_throws mode env w mic e Hr Hm Hd) as [Heq _].
      eexists; exists (withMic mode mic w). split; [exact Heq|]. auto. }
  destruct (getVideoTracks scr) as [|t ts] eqn:Hv.
  - destruct (start_no_video_track mode env w mic scr Hr Hm Hd Hv) as [Heq _].
    exists noVideoTrackError, (withScreen mode mic scr w). auto.
  - assert (Hne : getVideoTracks scr <> []) by (rewrite Hv; discriminate).
    destruct (start_succeeds mode env w mic scr Hr Hm Hd Hne); congruence.
Qed.

(** X13.  A failure is shown and can be recovered from.  After a start that
    fails, made when no session was active, and after an error of the
    channel, the rendered view has the error box with a message, the grey
    status dot, the status line on standby, and the start button, enabled,
    with its label [Share Screen & Talk]. *)
Theorem failure_is_shown (mode : ReactMode) (dateNow : Z) (w : World) :
  queuesRespectMode mode w ->
  let shown (v : View) :=
    headerButton v = ShareScreen false "Share Screen & Talk"
    /\ (exists msg, errorBox v = Some msg /\ truthy msg = true)
    /\ statusDot v = "bg-slate-600"
    /\ micAndVision v = "Standby" in
  (forall env,
     isActive (renderedSession w) = false ->
     startCompletes mode env w = false ->
     shown (view (render dateNow (startLiveSession mode env w))))
  /\ shown (view (render dateNow (onerror mode w))).
Proof.
  intros Hq shown. split.
  - intros env Hact Hc.
    destruct (start_failure_cases mode env w Hc)
      as (err & v & Heq & Hs & Hp & Hpt & Htr).
    assert (Hqv : queuesRespectMode mode v).
    { apply (queuesRespectMode_fields mode (connecting mode w));
        [exact Hp | |apply queuesRespectMode_connecting; exact Hq].
      rewrite Hpt. unfold connecting, setSession; destruct mode; reflexivity. }
    assert (Hrs : renderedSession v = renderedSession (connecting mode w))
      by (unfold renderedSession; rewrite Hs, Hp; reflexivity).
    unfold shown, view. rewrite Heq. unfold caught.
    rewrite session_render, renderedSession_stopAllStreams,
      renderedSession_setSession, Hrs, renderedSession_connecting
      by assumption.
    unfold App_view; simpl. rewrite Hact.
    rewrite (orElse_truthy (message err) fallbackMessage eq_refl).
    repeat split. eexists; split; [reflexivity|].
    apply orElse_truthy; reflexivity.
  - unfold shown, view, onerror.
    rewrite session_render, renderedSession_handleStopSession,
      renderedSession_setSession
      by (try apply queuesRespectMode_setSession; exact Hq).
    unfold App_view; simpl. repeat split.
    eexists; split; reflexivity.
Qed.

Lemma failure_is_shown_witness :
  headerButton
    (view (render 1 (startLiveSession Deferred Sample.micRefused initialWorld)))
  = ShareScreen false "Share Screen & Talk"
  /\ errorBox (view (render 9 (onerror Deferred (Sample.playing Deferred))))
     = Some connectionLostMessage.
Proof.
  split.
  - assert (Hq : queuesRespectMode Deferred initialWorld)
      by (intro H; discriminate H).
    exact (proj1 (proj1 (failure_is_shown Deferred 1 initialWorld Hq)
                    Sample.micRefused eq_refl eq_refl)).
  - reflexivity.
Defined.

(** X14.  Along every run from the initial state the view is coherent: the
    stop button, the video element and the overlay are rendered together;
    a connected session shows the stop button and an idle one the enabled
    start button; the start button is disabled only while connecting; the
    error box shows the error of the session whenever there is one; the
    transcript has at most 11 bubbles, and its placeholder is rendered
    exactly when it has none. *)
Theorem view_along_runs (mode : ReactMode)
    (decodeAudioData : string -> Completion Q) (evs : list Event) :
  let w := run mode decodeAudioData evs initialWorld in
  let v := view w in
  (headerButton v = StopSharing <-> showsVideo v = true)
  /\ showsLiveVision v = showsVideo v
  /\ (status (session w) = StatusConnected -> headerButton v = StopSharing)
  /\ (status (session w) = StatusIdle ->
      headerButton v = ShareScreen false "Share Screen & Talk")
  /\ (forall label, headerButton v = ShareScreen true label ->
                    status (session w) = StatusConnecting)
  /\ errorBox v = error (session w)
  /\ (List.length (bubbles v) <= 11)%nat
  /\ (showsNoActivity v = true <-> bubbles v = []).
Proof.
  intros w v.
  assert (Hs : sessionInv w).
  { apply (run_keeps mode decodeAudioData sessionInv).
    - intros e u. apply step_sessionInv.
    - split; [|constructor]. unfold sessionOk; simpl.
      repeat split; try reflexivity; try discriminate. }
  assert (Hl : logBounded w).
  { apply (run_keeps mode decodeAudioData logBounded).
    - intros e u. apply step_logBounded.
    - unfold logBounded; simpl. lia. }
  destruct Hs as [(H1 & H2 & H3 & H4 & H5 & H6 & H7) _].
  subst v. unfold view, App_view; simpl.
  destruct (session w) as [act mut shr st err]; simpl in *. subst shr.
  split; [|split; [|split; [|split; [|split; [|split; [|split]]]]]].
  - destruct act; split; intro H; congruence.
  - reflexivity.
  - intro Hst. rewrite (H4 Hst). reflexivity.
  - intro Hst. rewrite (H3 Hst), Hst. reflexivity.
  - intros label. destruct act; [discriminate|].
    destruct st; simpl; intro H; congruence.
  - destruct err as [msg|]; [|reflexivity]. rewrite (H7 msg eq_refl).
    reflexivity.
  - rewrite length_map. exact Hl.
  - destruct (transcriptions w); simpl; split; intro H;
      reflexivity || discriminate H.
Qed.

(** ** The outgoing side *)

Lemma nth_error_setNth {A : Type} (n : nat) (x : A) (l : list A) :
  (n < List.length l)%nat -> nth_error (setNth n x l) n = Some x.
Proof.
  revert n. induction l as [|y l IH]; intros n Hn; simpl in *; [lia|].
  destruct n; simpl; [reflexivity|]. apply IH. lia.
Qed.

Lemma nth_error_length {A : Type} (n : nat) (x : A) (l : list A) :
  nth_error l n = Some x -> (n < List.length l)%nat.
Proof. intro H. apply nth_error_Some. congruence. Qed.

Section OutgoingFacts.

Variable Samples : Type.
Variable createBlob : Samples -> Media.

Lemma forward_pending (blocks : list Samples) (c : Client) (p : nat)
    (thens : list Media) :
  sessionPromiseRef c = Some p ->
  nth_error (promises c) p = Some (Pending thens) ->
  let c' := forward Samples createBlob blocks c in
  sessionPromiseRef c' = Some p
  /\ nth_error (promises c') p
     = Some (Pending (thens ++ map createBlob blocks))
  /\ sent c' = sent c /\ world c' = world c.
Proof.
  revert c thens. induction blocks as [|b blocks IH]; intros c thens Hr Hp;
    simpl.
  - rewrite app_nil_r. auto.
  - assert (Hlen := nth_error_length _ _ _ Hp).
    destruct (IH (onaudioprocess Samples createBlob b c) (thens ++ [createBlob b]))
      as (H1 & H2 & H3 & H4).
    + unfold onaudioprocess, thenSend. rewrite Hr, Hp. reflexivity.
    + unfold onaudioprocess, thenSend. rewrite Hr, Hp. simpl.
      apply nth_error_setNth; exact Hlen.
    + unfold forward in *. rewrite H1, H2, H3, H4, <- app_assoc.
      unfold onaudioprocess, thenSend. rewrite Hr, Hp. simpl. auto.
Qed.

(** X15.  Audio blocks captured while the connection is still pending are
    not dropped: they are kept on the promise and handed to the session, in
    the order of capture, when it is fulfilled; if it is rejected none of
    them is ever sent. *)
Theorem blocks_wait_for_the_session (blocks : list Samples) (c : Client)
    (p : nat) :
  sessionPromiseRef c = Some p ->
  nth_error (promises c) p = Some (Pending []) ->
  sent (connectFulfilled p (forward Samples createBlob blocks c))
  = sent c ++ map (fun b => (p, createBlob b)) blocks
  /\ (forall later,
        sent (forward Samples createBlob later
                (connectRejected p (forward Samples createBlob blocks c)))
        = sent c).
Proof.
  intros Hr Hp.
  destruct (forward_pending blocks c p [] Hr Hp) as (H1 & H2 & H3 & H4).
  simpl in H2. split.
  - unfold connectFulfilled. rewrite H2. simpl. rewrite H3, map_map.
    reflexivity.
  - intro later.
    set (c1 := connectRejected p (forward Samples createBlob blocks c)).
    assert (Hc1 : sessionPromiseRef c1 = Some p
                  /\ nth_error (promises c1) p = Some Rejected
                  /\ sent c1 = sent c).
    { subst c1. unfold connectRejected. rewrite H2. simpl.
      repeat split; try assumption.
      apply nth_error_setNth. apply (nth_error_length _ _ _ H2). }
    destruct Hc1 as (A & B & C). rewrite <- C.
    clear - A B. revert c1 A B.
    induction later as [|b later IH]; intros c1 A B; simpl; [reflexivity|].
    assert (Hsame : onaudioprocess Samples createBlob b c1 = c1)
      by (unfold onaudioprocess, thenSend; rewrite A, B; reflexivity).
    unfold forward in *. simpl. rewrite Hsame. apply IH; assumption.
Qed.

(** X16.  Once the session is there, each audio block makes exactly one
    call of [sendRealtimeInput], whatever the state of the world: the handler
    looks at [sessionPromiseRef] only, which a stop leaves in place, so that
    a block captured after a stop is sent as well.  Without a session
    promise nothing is sent. *)
Theorem one_call_for_each_block (mode : ReactMode) (b : Samples)
    (c : Client) (p : nat) :
  sessionPromiseRef c = Some p ->
  nth_error (promises c) p = Some Fulfilled ->
  sent (onaudioprocess Samples createBlob b c) = sent c ++ [(p, createBlob b)]
  /\ sent (onaudioprocess Samples createBlob b
             (inWorld (handleStopSession mode) c))
     = sent c ++ [(p, createBlob b)]
  /\ (forall c0, sessionPromiseRef c0 = None ->
                 onaudioprocess Samples createBlob b c0 = c0).
Proof.
  intros Hr Hp. unfold onaudioprocess, thenSend, inWorld; simpl.
  rewrite Hr, Hp. repeat split.
  intros c0 H0. rewrite H0. reflexivity.
Qed.

End OutgoingFacts.

Lemma blocks_wait_for_the_session_witness :
  let c :=
    startLiveSession_client Deferred Sample.granted initialClient in
  sent (connectFulfilled 0
          (forward (list Q) sampleBlob [[1%Q]; [1%Q; 2%Q]] c))
  = [(0%nat, sampleBlob [1%Q]); (0%nat, sampleBlob [1%Q; 2%Q])].
Proof.
  intro c.
  exact (proj1 (blocks_wait_for_the_session (list Q) sampleBlob
                  [[1%Q]; [1%Q; 2%Q]] c 0 eq_refl eq_refl)).
Defined.

Lemma one_call_for_each_block_witness :
  let c :=
    connectFulfilled 0
      (startLiveSession_client Deferred Sample.granted initialClient) in
  sent (onaudioprocess (list Q) sampleBlob [1%Q]
          (inWorld (handleStopSession Deferred) c))
  = [(0%nat, sampleBlob [1%Q])].
Proof.
  intro c.
  exact (proj1 (proj2 (one_call_for_each_block (list Q) sampleBlob Deferred
                         [1%Q] c 0 eq_refl eq_refl))).
Defined.

(** ** The frames *)






(** ** Messages and the session state *)

(** X18.  An audio payload that is the empty string, or that arrives while
    there is no output context, is skipped and nothing else: the message is
    handled as the same message without audio (its transcript deltas, its
    [turnComplete] and its [interrupted] flag are processed). *)
Theorem undecoded_payload_is_skipped (mode : ReactMode)
    (decodeAudioData : string -> Completion Q) (ct : Q) (ts : Z)
    (msg : LiveServerMessage) (w : World) :
  decodedPayload msg w = None ->
  onmessage mode decodeAudioData ct ts msg w
  = onmessage mode decodeAudioData ct ts (withoutAudio msg) w
  /\ fst (onmessage mode decodeAudioData ct ts msg w) = Normal tt
  /\ scheduledStarts
       (trace (step mode decodeAudioData w (EvMessage ct ts msg)))
     = scheduledStarts (trace w).
Proof.
  intro Hd.
  destruct (onmessage_no_audio mode decodeAudioData ct ts msg w Hd)
    as (w' & Hw & _ & _ & _ & Ht).
  split; [|split].
  - apply decodedPayload_None in Hd.
    destruct msg as [au it inp outp tcm]; simpl in *.
    unfold withoutAudio, onmessage; simpl.
    destruct Hd as [-> | (b & -> & Hb)]; [reflexivity|].
    unfold bind at 1 3. unfold bind at 1, gets, when. simpl. rewrite Hb.
    reflexivity.
  - rewrite Hw. reflexivity.
  - simpl. unfold exec. rewrite Hw; simpl. rewrite Ht, scheduledStarts_app.
    destruct (interrupted msg); simpl;
      rewrite ?scheduledStarts_map_SourceStop, app_nil_r; reflexivity.
Qed.

Lemma undecoded_payload_is_skipped_witness :
  onmessage Deferred Sample.decodeAudioData 1 2
    (mkMessage (Some "") false (Some "hi") None false)
    (Sample.connected Deferred)
  = onmessage Deferred Sample.decodeAudioData 1 2
      (mkMessage None false (Some "hi") None false)
      (Sample.connected Deferred).
Proof.
  exact (proj1 (undecoded_payload_is_skipped Deferred Sample.decodeAudioData
                  1 2 (mkMessage (Some "") false (Some "hi") None false)
                  (Sample.connected Deferred) eq_refl)).
Defined.

(** X19.  [onmessage] neither reads nor writes the session state: handling
    a message in a world whose session is replaced gives the world it gives
    otherwise, with the session replaced.  A message that arrives after a
    stop or an error is therefore handled as before it. *)
Theorem onmessage_ignores_the_session (mode : ReactMode)
    (decodeAudioData : string -> Completion Q) (ct : Q) (ts : Z)
    (msg : LiveServerMessage) (s : SessionState) (ps : list SessionUpdate)
    (w : World) :
  step mode decodeAudioData (withSession s ps w) (EvMessage ct ts msg)
  = withSession s ps (step mode decodeAudioData w (EvMessage ct ts msg))
  /\ fst (onmessage mode decodeAudioData ct ts msg (withSession s ps w))
     = fst (onmessage mode decodeAudioData ct ts msg w).
Proof.
  destruct msg as [au it inp outp tcm].
  destruct w as [se tr pse pt ic oc nst srcs nid scr mc fi ci co tc].
  unfold withSession. simpl. unfold_handler; simpl.
  destruct au as [b|];
    [destruct (truthy b), oc; simpl;
     [destruct (decodeAudioData b); simpl|..]|];
    destruct it, inp, outp, tcm, mode; simpl;
    rewrite ?fold_log; simpl; split_truthy; simpl;
    split; reflexivity.
Qed.

(** ** How long an error message stays *)

Lemma step_queuesRespectMode (mode : ReactMode)
    (decodeAudioData : string -> Completion Q) (e : Event) (w : World) :
  queuesRespectMode mode w ->
  queuesRespectMode mode (step mode decodeAudioData w e).
Proof.
  apply step_keeps; try solve [intros; simpl; assumption].
  - intros u v _. apply queuesRespectMode_setSession.
  - intros ts u v Hv Hm. subst mode. exact (Hv eq_refl).
  - intros ts v _ _. split; reflexivity.
  - intros v. apply queuesRespectMode_stopAllStreams.
  - intros v Hv. rewrite stopSources_logs. exact Hv.
Qed.

Lemma onmessage_keeps_session (mode : ReactMode)
    (decodeAudioData : string -> Completion Q) (ct : Q) (ts : Z)
    (msg : LiveServerMessage) (w : World) :
  renderedSession (step mode decodeAudioData w (EvMessage ct ts msg))
  = renderedSession w.
Proof.
  assert (H : preserves
                (fun v => session v = session w
                          /\ pendingSession v = pendingSession w)
                (onmessage mode decodeAudioData ct ts msg)).
  { unfold onmessage. preserves_steps;
      try solve [simpl; assumption];
      try solve [unfold setTranscriptions; destruct mode; simpl; assumption].
    rewrite stopSources_logs; simpl; assumption. }
  destruct (H w (conj eq_refl eq_refl)) as [H1 H2].
  simpl. unfold exec, renderedSession. rewrite H1, H2. reflexivity.
Qed.

(** X20.  An error message stays until the next start or the next error of
    the channel: no other event (a stop, a close, the end of the video track,
    the opening of the channel, a message, the end of a source, a render)
    changes the [error] of the session. *)
Theorem error_message_stays (mode : ReactMode)
    (decodeAudioData : string -> Completion Q) (evs : list Event)
    (w : World) :
  queuesRespectMode mode w ->
  forallb (fun e => negb (setsError e)) evs = true ->
  error (renderedSession (run mode decodeAudioData evs w))
  = error (renderedSession w).
Proof.
  revert w. induction evs as [|e evs IH]; intros w Hq Hevs.
  - reflexivity.
  - simpl in Hevs. apply andb_true_iff in Hevs. destruct Hevs as [He Hevs].
    apply negb_true_iff in He.
    change (run mode decodeAudioData (e :: evs) w)
      with (run mode decodeAudioData evs (step mode decodeAudioData w e)).
    rewrite IH; [|apply step_queuesRespectMode; exact Hq | exact Hevs].
    destruct e as [env| |id|ct ts msg| | | |s|ts]; try discriminate He;
      simpl.
    + unfold stopButton_onClick.
      rewrite renderedSession_handleStopSession by exact Hq. reflexivity.
    + unfold onopen.
      change (renderedSession
                (set_frameInterval (Some id) (setSession mode ToConnected w)))
        with (renderedSession (setSession mode ToConnected w)).
      rewrite renderedSession_setSession by exact Hq. reflexivity.
    + change (exec (onmessage mode decodeAudioData ct ts msg) w)
        with (step mode decodeAudioData w (EvMessage ct ts msg)).
      rewrite onmessage_keeps_session. reflexivity.
    + unfold onclose.
      rewrite renderedSession_handleStopSession by exact Hq. reflexivity.
    + unfold videoTrack_onended.
      rewrite renderedSession_handleStopSession by exact Hq. reflexivity.
    + reflexivity.
    + unfold renderedSession, render; simpl. reflexivity.
Qed.

Lemma error_message_stays_witness :
  let failed :=
    render 1 (startLiveSession Deferred Sample.micRefused initialWorld) in
  error
    (renderedSession
       (run Deferred Sample.decodeAudioData
          [EvStopClick; EvRender 2; EvClose; EvOpen 3; EvRender 4] failed))
  = Some "Permission denied".
Proof.
  intro failed.
  assert (Hq : queuesRespectMode Deferred failed)
    by (intro H; discriminate H).
  exact (error_message_stays Deferred Sample.decodeAudioData
           [EvStopClick; EvRender 2; EvClose; EvOpen 3; EvRender 4] failed
           Hq eq_refl).
Defined.

(** ** Audio and interruption in one message *)

(** X21.  The audio of a message is handled before its [interrupted] flag:
    a message that carries both has its buffer started and stopped in the
    same handler, together with every source that was playing, and leaves no
    source and the cursor at 0. *)
Theorem interrupted_audio_is_cut (mode : ReactMode)
    (decodeAudioData : string -> Completion Q) (ct : Q) (ts : Z)
    (msg : LiveServerMessage) (w : World) (d : string) (q : Q) :
  decodedPayload msg w = Some d -> decodeAudioData d = Normal q ->
  interrupted msg = true ->
  let w' := step mode decodeAudioData w (EvMessage ct ts msg) in
  let node := nextSourceId w in
  exists stops,
    trace w'
    = trace w ++ [SourceStart node (Math_max (nextStartTime w) ct)] ++ stops
    /\ In (SourceStop node) stops
    /\ (forall s, In s (audioSources w) -> In (SourceStop s) stops)
    /\ audioSources w' = []
    /\ nextStartTime w' = 0%Q.
Proof.
  intros Hd Hq Hi w' node. subst w' node.
  destruct (onmessage_audio mode decodeAudioData ct ts msg w d q Hd Hq)
    as (v & Hv & _ & Hn & Hs & Ht).
  rewrite Hi in Hn, Hs, Ht. simpl. unfold exec. rewrite Hv; simpl.
  exists (map SourceStop (Set_add (nextSourceId w) (audioSources w))).
  split; [exact Ht|]. split; [|split; [|split]]; try assumption.
  - apply in_map. unfold Set_add.
    destruct (existsb (Nat.eqb (nextSourceId w)) (audioSources w)) eqn:E.
    + apply existsb_exists in E. destruct E as (x & Hx & Hxe).
      apply Nat.eqb_eq in Hxe. subst x. exact Hx.
    + apply in_or_app; right. left; reflexivity.
  - intros s Hin. apply in_map. apply In_Set_add; exact Hin.
Qed.

Lemma interrupted_audio_is_cut_witness :
  let w' :=
    step Deferred Sample.decodeAudioData (Sample.playing Deferred)
      (EvMessage 1 3 (mkMessage (Some "ab") true None None false)) in
  audioSources w' = [] /\ nextStartTime w' = 0%Q.
Proof.
  destruct (interrupted_audio_is_cut Deferred Sample.decodeAudioData 1 3
              (mkMessage (Some "ab") true None None false)
              (Sample.playing Deferred) "ab" (2 # 2) eq_refl eq_refl eq_refl)
    as (stops & _ & _ & _ & H4 & H5).
  split; [exact H4 | exact H5].
Defined.
